(** * Blueforge collaboration server: SocketService.ts and RedisService.ts

    A shallow embedding of the real-time collaboration service
    (backend/src/services/SocketService.ts) together with the cache
    primitives it calls (backend/src/services/RedisService.ts), and the
    properties of the session coordinator checked against it.

    Conventions of the model.
    - A handler run is one atomic transition; every clock read inside one
      run ([Date.now()], [new Date()]) is the same instant [now], in
      milliseconds. The Redis server shares that clock.
    - The Redis store is a finite map from keys to entries carrying the
      write instant and the TTL given to [setEx]; [setEx] is refused for a
      TTL that is not positive, and the other calls resolve.
    - socket.io is represented by what the service uses of it: the room
      index filled by the service's [socket.join] calls (emptied for a socket
      when it closes), the room socket.io itself keeps for every connected
      socket under the socket's own id, the three ways of emitting
      ([socket.emit], [socket.to(room).emit], [io.to(room).emit]) and the
      once-only dispatch of [disconnect]. *)

From Stdlib Require Import ZArith Lia Ascii DecimalString DecimalZ.
From stdpp Require Import gmap strings list fin_maps.

#[local] Set Warnings "-clear-no-such-hyp".

Local Open Scope string_scope.
Local Open Scope Z_scope.

(** ** JavaScript values *)

(** Truthiness of an optional string field: [undefined] and the empty string
    are falsy. *)
Definition truthy (v : option string) : bool :=
  match v with
  | Some s => negb (String.eqb s "")
  | None => false
  end.

(** [`${n}`] for an integer [n]. *)
Definition template_int (n : Z) : string :=
  NilZero.string_of_int (Z.to_int n).

(** [s.substr(start, len)]. *)
Definition substr (start len : nat) (s : string) : string :=
  String.substring start len s.

(** [[...new Set(users)]]: insertion order, first occurrence kept. *)
Fixpoint set_spread_from (seen : list string) (users : list string) : list string :=
  match users with
  | [] => []
  | u :: rest =>
      if bool_decide (u ∈ seen) then set_spread_from seen rest
      else u :: set_spread_from (u :: seen) rest
  end.

Definition set_spread (users : list string) : list string :=
  set_spread_from [] users.

(** ** Data model *)

(** [interface UserSocket extends Socket { userId?; projectId? }], with
    socket.io's [connected] flag. *)
Record UserSocket := mkSocket {
  userId : option string;
  projectId : option string;
  connected : bool
}.

Record position := mkPosition { line : Z; column : Z }.

(** Values the service serialises into Redis. *)
Inductive cache_value :=
| CursorValue (pos : position)
| SessionValue (socketId : string) (lastSeen : Z) (isActive : bool).

(** One key written by [setEx(key, ttl, value)] at instant [written_at]. *)
Record cache_entry := mkEntry {
  value : cache_value;
  written_at : Z;
  ttl : Z
}.

(** Events emitted by the server. *)
Inductive outbound :=
| UserJoined (uid sid : string) (timestamp : Z)
| AuthError (message : string)
| CursorUpdate (uid : string) (pos : position) (timestamp : Z)
| FileChange (fileId content changes uid : string) (timestamp : Z)
| ChatMessage (id uid pid content type : string) (timestamp : Z)
| TypingStart (uid : string) (timestamp : Z)
| TypingStop (uid : string) (timestamp : Z)
| UserLeft (uid sid : string) (timestamp : Z)
| Custom (event data : string).

(** How an emission was addressed. *)
Inductive address :=
| ToSocket (sid : string)
| ToRoom (room : string)
| ToRoomExcept (room sender : string).

Record emission := mkEmission {
  addr : address;
  recipients : gset string;
  payload : outbound
}.

(** Payloads received from clients. [authenticate] may arrive without a
    payload object, in which case reading [data.userId] throws. *)
Record auth_data := mkAuth { a_userId : string; a_projectId : string }.
Record file_data := mkFile { f_fileId : string; f_content : string; f_changes : string }.
Record chat_data := mkChat { c_message : string; c_type : option string }.

Inductive inbound :=
| authenticate (data : option auth_data)
| cursor_update (data : position)
| file_change (data : file_data)
| chat_message (data : chat_data) (random36 : string)
| typing_start
| typing_stop.

(** The service state: the socket objects, the adapter's room index, the
    [connectedUsers] map (its keys in insertion order; the values are the
    socket objects themselves, read through [sockets]) and the Redis store. *)
Record State := mkState {
  sockets : gmap string UserSocket;
  rooms : gmap string (gset string);
  connectedUsers : list string;
  redis : gmap string cache_entry
}.

Definition init : State := mkState ∅ ∅ [] ∅.

(** ** RedisService *)

Module RedisService.

(** [SETEX] is refused unless the TTL is positive: the call rejects ([None])
    and the store is left as it was. *)
Definition setEx (key : string) (seconds : Z) (v : cache_value) (now : Z)
    (store : gmap string cache_entry) : option (gmap string cache_entry) :=
  if 0 <? seconds then Some (<[key := mkEntry v now seconds]> store) else None.

Definition get (key : string) (now : Z) (store : gmap string cache_entry)
    : option cache_value :=
  match store !! key with
  | Some e => if now <? written_at e + ttl e * 1000 then Some (value e) else None
  | None => None
  end.

Definition del (key : string) (store : gmap string cache_entry)
    : gmap string cache_entry :=
  delete key store.

Definition setCache (key : string) (data : cache_value) (seconds : Z) (now : Z)
    (store : gmap string cache_entry) : option (gmap string cache_entry) :=
  setEx ("cache:" +:+ key) seconds data now store.

Definition getCache (key : string) (now : Z) (store : gmap string cache_entry)
    : option cache_value :=
  get ("cache:" +:+ key) now store.

Definition deleteCache (key : string) (store : gmap string cache_entry)
    : gmap string cache_entry :=
  del ("cache:" +:+ key) store.

End RedisService.

Definition cursor_key (uid pid : string) : string :=
  "cursor:" +:+ uid +:+ ":" +:+ pid.

Definition collaboration_key (uid pid : string) : string :=
  "collaboration:" +:+ uid +:+ ":" +:+ pid.

(** ** socket.io primitives used by the service *)

Definition members (st : State) (room : string) : gset string :=
  default ∅ (rooms st !! room).

Definition with_sockets (f : gmap string UserSocket → gmap string UserSocket)
    (st : State) : State :=
  mkState (f (sockets st)) (rooms st) (connectedUsers st) (redis st).

Definition with_rooms (f : gmap string (gset string) → gmap string (gset string))
    (st : State) : State :=
  mkState (sockets st) (f (rooms st)) (connectedUsers st) (redis st).

Definition with_connectedUsers (f : list string → list string) (st : State) : State :=
  mkState (sockets st) (rooms st) (f (connectedUsers st)) (redis st).

Definition with_redis (f : gmap string cache_entry → gmap string cache_entry)
    (st : State) : State :=
  mkState (sockets st) (rooms st) (connectedUsers st) (f (redis st)).

(** [socket.join(room)] *)
Definition join (sid room : string) (st : State) : State :=
  with_rooms (λ rs, <[room := {[sid]} ∪ default ∅ (rs !! room)]> rs) st.

(** What socket.io does to the adapter when a socket closes. *)
Definition leaveAll (sid : string) (st : State) : State :=
  with_rooms (fmap (λ ms : gset string, ms ∖ {[sid]})) st.

Definition is_connected (sid : string) (st : State) : bool :=
  match sockets st !! sid with
  | Some sock => connected sock
  | None => false
  end.

(** The room socket.io keeps for every connected socket under the socket's
    own id: the room of that name holds that socket. *)
Definition own_room (st : State) (room : string) : gset string :=
  if is_connected room st then {[room]} else ∅.

(** The sockets a room of the adapter holds: those the service joined to
    it, and the socket of that very id. *)
Definition room_sockets (st : State) (room : string) : gset string :=
  members st room ∪ own_room st room.

(** [socket.emit(...)] *)
Definition socket_emit (sid : string) (p : outbound) : emission :=
  mkEmission (ToSocket sid) {[sid]} p.

(** [socket.to(room).emit(...)] *)
Definition socket_to (sid room : string) (p : outbound) (st : State) : emission :=
  mkEmission (ToRoomExcept room sid) (room_sockets st room ∖ {[sid]}) p.

(** [this.io.to(room).emit(...)] *)
Definition io_to (room : string) (p : outbound) (st : State) : emission :=
  mkEmission (ToRoom room) (room_sockets st room) p.

(** ** SocketService *)

(** The guard [socket.userId && socket.projectId], returning both strings
    when it passes. *)
Definition authenticated (sock : UserSocket) : option (string * string) :=
  match userId sock, projectId sock with
  | Some u, Some p =>
      if truthy (Some u) && truthy (Some p) then Some (u, p) else None
  | _, _ => None
  end.

(** [this.connectedUsers.set(socket.id, socket)] on the key order. *)
Definition connectedUsers_set (sid : string) (keys : list string) : list string :=
  if bool_decide (sid ∈ keys) then keys else (keys ++ [sid])%list.

(** [this.connectedUsers.delete(socket.id)] *)
Definition connectedUsers_delete (sid : string) (keys : list string) : list string :=
  filter (λ k, k ≠ sid) keys.

(** A write Redis refuses is caught and logged: the store stays as it was. *)
Definition updateCollaborationSession (uid pid sid : string) (now : Z) (st : State) : State :=
  with_redis
    (λ store,
       default store
         (RedisService.setCache (collaboration_key uid pid)
            (SessionValue sid now true) 3600 now store))
    st.

Definition removeCollaborationSession (uid pid : string) (st : State) : State :=
  with_redis (RedisService.deleteCache (collaboration_key uid pid)) st.

(** [msg_${Date.now()}_${Math.random().toString(36).substr(2, 9)}];
    [random36] is the value of [Math.random().toString(36)]. *)
Definition message_id (now : Z) (random36 : string) : string :=
  "msg_" +:+ template_int now +:+ "_" +:+ substr 2 9 random36.

(** [data.type || 'user'] *)
Definition chat_type (t : option string) : string :=
  match t with
  | Some s => if truthy t then s else "user"
  | None => "user"
  end.

Definition on_authenticate (sid : string) (data : option auth_data) (now : Z)
    (st : State) : State * list emission :=
  match data with
  | None => (st, [socket_emit sid (AuthError "Authentication failed")])
  | Some d =>
      let st1 :=
        with_sockets
          (alter (λ s, mkSocket (Some (a_userId d)) (Some (a_projectId d)) (connected s)) sid)
          st in
      let st2 := join sid (a_projectId d) st1 in
      let st3 := with_connectedUsers (connectedUsers_set sid) st2 in
      let st4 := updateCollaborationSession (a_userId d) (a_projectId d) sid now st3 in
      (st4, [socket_to sid (a_projectId d) (UserJoined (a_userId d) sid now) st4])
  end.

(** A write Redis refuses rejects the handler before it emits. *)
Definition on_cursor_update (sid : string) (data : position) (now : Z)
    (st : State) : State * list emission :=
  match sockets st !! sid ≫= authenticated with
  | Some (u, p) =>
      match RedisService.setCache (cursor_key u p) (CursorValue data) 60 now (redis st) with
      | Some store =>
          let st1 := with_redis (λ _, store) st in
          (st1, [socket_to sid p (CursorUpdate u data now) st1])
      | None => (st, [])
      end
  | None => (st, [])
  end.

Definition on_file_change (sid : string) (data : file_data) (now : Z)
    (st : State) : State * list emission :=
  match sockets st !! sid ≫= authenticated with
  | Some (u, p) =>
      (st, [socket_to sid p
              (FileChange (f_fileId data) (f_content data) (f_changes data) u now) st])
  | None => (st, [])
  end.

Definition on_chat_message (sid : string) (data : chat_data) (random36 : string)
    (now : Z) (st : State) : State * list emission :=
  match sockets st !! sid ≫= authenticated with
  | Some (u, p) =>
      let messageData :=
        ChatMessage (message_id now random36) u p (c_message data)
                    (chat_type (c_type data)) now in
      (st, [io_to p messageData st])
  | None => (st, [])
  end.

Definition on_typing_start (sid : string) (now : Z) (st : State)
    : State * list emission :=
  match sockets st !! sid ≫= authenticated with
  | Some (u, p) => (st, [socket_to sid p (TypingStart u now) st])
  | None => (st, [])
  end.

Definition on_typing_stop (sid : string) (now : Z) (st : State)
    : State * list emission :=
  match sockets st !! sid ≫= authenticated with
  | Some (u, p) => (st, [socket_to sid p (TypingStop u now) st])
  | None => (st, [])
  end.

Definition on_disconnect (sid : string) (now : Z) (st : State)
    : State * list emission :=
  let '(st1, out) :=
    match sockets st !! sid ≫= authenticated with
    | Some (u, p) =>
        let st1 := removeCollaborationSession u p st in
        (st1, [socket_to sid p (UserLeft u sid now) st1])
    | None => (st, [])
    end in
  (with_connectedUsers (connectedUsers_delete sid) st1, out).

Definition getConnectedUsers (pid : string) (st : State) : list string :=
  let users :=
    omap (λ sid,
            match sockets st !! sid with
            | Some sock =>
                if bool_decide (projectId sock = Some pid) && truthy (userId sock)
                then userId sock else None
            | None => None
            end)
         (connectedUsers st) in
  set_spread users.

Definition sendToUser (uid event data : string) (st : State) : list emission :=
  omap (λ sid,
          match sockets st !! sid with
          | Some sock =>
              if bool_decide (userId sock = Some uid)
              then Some (socket_emit sid (Custom event data)) else None
          | None => None
          end)
       (connectedUsers st).

Definition sendToProject (pid event data : string) (st : State) : list emission :=
  [io_to pid (Custom event data) st].

(** ** Dispatch: what socket.io delivers to the service *)

Inductive input :=
| Connect (sid : string)
| Message (sid : string) (msg : inbound) (now : Z)
| Close (sid : string) (now : Z)
| SendToUser (uid event data : string)
| SendToProject (pid event data : string).

Definition handle (sid : string) (msg : inbound) (now : Z) (st : State)
    : State * list emission :=
  match msg with
  | authenticate data => on_authenticate sid data now st
  | cursor_update data => on_cursor_update sid data now st
  | file_change data => on_file_change sid data now st
  | chat_message data random36 => on_chat_message sid data random36 now st
  | typing_start => on_typing_start sid now st
  | typing_stop => on_typing_stop sid now st
  end.

(** The transport closes a socket once: it leaves its rooms, is marked
    disconnected, and the [disconnect] handler runs. *)
Definition close_socket (sid : string) (st : State) : State :=
  with_sockets (alter (λ s, mkSocket (userId s) (projectId s) false) sid)
               (leaveAll sid st).

Definition step (i : input) (st : State) : State * list emission :=
  match i with
  | Connect sid =>
      match sockets st !! sid with
      | Some _ => (st, [])
      | None => (with_sockets (insert sid (mkSocket None None true)) st, [])
      end
  | Message sid msg now =>
      if is_connected sid st then handle sid msg now st else (st, [])
  | Close sid now =>
      if is_connected sid st then on_disconnect sid now (close_socket sid st)
      else (st, [])
  | SendToUser uid event data => (st, sendToUser uid event data st)
  | SendToProject pid event data => (st, sendToProject pid event data st)
  end.

Fixpoint run (tr : list input) (st : State) : State * list emission :=
  match tr with
  | [] => (st, [])
  | i :: rest =>
      let '(st1, out1) := step i st in
      let '(st2, out2) := run rest st1 in
      (st2, (out1 ++ out2)%list)
  end.

Definition reachable (st : State) : Prop :=
  ∃ tr, (run tr init).1 = st.

(** ** Properties and observations used in the statements *)

(** What holds of the socket table and the room index in every state the
    service reaches. *)
Record inv (st : State) : Prop := mkInv {
  inv_member_connected :
    ∀ r sid, sid ∈ members st r → is_connected sid st = true;
  inv_project_member :
    ∀ sid sock p,
      sockets st !! sid = Some sock → connected sock = true →
      projectId sock = Some p → sid ∈ members st p;
  inv_no_project_no_room :
    ∀ sid sock r,
      sockets st !! sid = Some sock → projectId sock = None → sid ∉ members st r;
  inv_fields_together :
    ∀ sid sock,
      sockets st !! sid = Some sock → (userId sock = None ↔ projectId sock = None)
}.

(** Messages relayed with [socket.to(...)]. *)
Definition relayed (msg : inbound) : bool :=
  match msg with
  | cursor_update _ | file_change _ | typing_start | typing_stop => true
  | authenticate _ | chat_message _ _ => false
  end.

(** The [catch] branch of the [authenticate] handler ran: an [auth_error]
    was emitted. *)
Definition auth_failed (out : list emission) : bool :=
  existsb (λ e, match payload e with AuthError _ => true | _ => false end) out.

(** The membership invariant as the specification words it: a connection
    with a room id is a member of that room and of no other. *)
Definition one_room_per_connection (st : State) : Prop :=
  ∀ sid sock p,
    sockets st !! sid = Some sock → connected sock = true →
    projectId sock = Some p →
    ∀ r, sid ∈ members st r ↔ r = p.

Definition room_of (a : address) : option string :=
  match a with
  | ToRoom room | ToRoomExcept room _ => Some room
  | ToSocket _ => None
  end.

(** Isolation as the specification words it: whoever receives an emission
    addressed to a room has that room as its current room. *)
Definition isolated (st : State) (e : emission) : Prop :=
  ∀ A c sock B,
    room_of (addr e) = Some A → c ∈ recipients e →
    sockets st !! c = Some sock → projectId sock = Some B → B = A.

(** A socket that has closed: it is known, not connected, in no room of
    the service and not in the registry. *)
Record gone (st : State) (sid : string) : Prop := mkGone {
  gone_known : is_Some (sockets st !! sid);
  gone_disconnected : is_connected sid st = false;
  gone_no_room : ∀ r, sid ∉ members st r;
  gone_unregistered : sid ∉ connectedUsers st
}.

(** The connection asked to join the room: the trace holds an
    [authenticate] of that socket carrying that project id. *)
Definition asked_to_join (tr : list input) (c A : string) : Prop :=
  ∃ d now, Message c (authenticate (Some d)) now ∈ tr ∧ a_projectId d = A.

(** The keys under which the two presence records live in Redis. *)
Definition session_key (uid pid : string) : string :=
  "cache:" +:+ collaboration_key uid pid.

Definition position_key (uid pid : string) : string :=
  "cache:" +:+ cursor_key uid pid.

(** Every entry of the store was written by one of the two [setCache] calls
    of the service, with that call's TTL. *)
Definition ttl_policy (store : gmap string cache_entry) : Prop :=
  ∀ k e, store !! k = Some e →
    (∃ u p, k = position_key u p ∧ ttl e = 60) ∨
    (∃ u p, k = session_key u p ∧ ttl e = 3600).

Definition is_user_left (sid : string) (e : emission) : bool :=
  match payload e with
  | UserLeft _ s _ => String.eqb s sid
  | _ => false
  end.

(** How many [user_left] notifications for [sid] a run emitted. *)
Definition notifications_left (sid : string) (out : list emission) : nat :=
  length (List.filter (is_user_left sid) out).

(** Reading an id back: the text up to the first underscore, and the text
    after it. *)
Fixpoint before_underscore (s : string) : string :=
  match s with
  | EmptyString => EmptyString
  | String c rest =>
      if Ascii.eqb c "_" then EmptyString else String c (before_underscore rest)
  end.

Fixpoint after_underscore (s : string) : string :=
  match s with
  | EmptyString => EmptyString
  | String c rest => if Ascii.eqb c "_" then rest else after_underscore rest
  end.

(** The clock reading carried by an id [msg_<ms>_<suffix>]. *)
Definition id_timestamp (id : string) : option Z :=
  match id with
  | String "m" (String "s" (String "g" (String "_" rest))) =>
      Z.of_int <$> NilZero.int_of_string (before_underscore rest)
  | _ => None
  end.

Definition id_suffix (id : string) : string :=
  match id with
  | String "m" (String "s" (String "g" (String "_" rest))) => after_underscore rest
  | _ => EmptyString
  end.

(** Ids ordered by the clock reading they carry. *)
Definition id_before (a b : string) : Prop :=
  match id_timestamp a, id_timestamp b with
  | Some ta, Some tb => ta < tb
  | _, _ => False
  end.

Definition underscore_free (s : string) : Prop :=
  before_underscore s = s.

(** The ids of the chat messages broadcast into a room, in emission order. *)
Definition chat_ids (pid : string) (out : list emission) : list string :=
  omap (λ e, match payload e with
             | ChatMessage id _ p _ _ _ => if String.eqb p pid then Some id else None
             | _ => None
             end) out.

(** ** Scenarios *)

(** Two connections, only [s2] authenticated. *)
Definition lobby : State :=
  (run [Connect "s1"; Connect "s2";
        Message "s2" (authenticate (Some (mkAuth "u2" "proj-1"))) 10] init).1.

(** Two connections authenticated into the same project. *)
Definition duo : State :=
  (run [Connect "s1"; Connect "s2";
        Message "s1" (authenticate (Some (mkAuth "u1" "proj-1"))) 10;
        Message "s2" (authenticate (Some (mkAuth "u2" "proj-1"))) 11] init).1.

(** One connection authenticating twice, into different projects. *)
Definition switched : State :=
  (run [Connect "s1";
        Message "s1" (authenticate (Some (mkAuth "u1" "proj-A"))) 10;
        Message "s1" (authenticate (Some (mkAuth "u1" "proj-B"))) 20] init).1.

(** [s1] and [s2] share [proj-A]; then [s1] authenticates into [proj-B]. *)
Definition crossed : State :=
  (run [Connect "s1"; Connect "s2";
        Message "s1" (authenticate (Some (mkAuth "u1" "proj-A"))) 10;
        Message "s2" (authenticate (Some (mkAuth "u2" "proj-A"))) 11;
        Message "s1" (authenticate (Some (mkAuth "u1" "proj-B"))) 20] init).1.

(** A connection authenticating with an empty project id. *)
Definition nameless_project : State :=
  (run [Connect "s1";
        Message "s1" (authenticate (Some (mkAuth "u1" ""))) 10] init).1.

(** A run in which no connection closes: more than an hour after [s1]
    authenticated, [s2] is still active. *)
Definition silent_drop : list input :=
  [Connect "s1"; Connect "s2";
   Message "s1" (authenticate (Some (mkAuth "u1" "proj-1"))) 0;
   Message "s2" (authenticate (Some (mkAuth "u2" "proj-1"))) 1000;
   Message "s2" typing_start 4000000].

(** Two chat messages handled within the same millisecond, with the same
    draw of [Math.random()]. *)
Definition same_instant : list input :=
  [Message "s1" (chat_message (mkChat "hi" None) "0.4fzyo82mvyr") 1700000000000;
   Message "s2" (chat_message (mkChat "hello" None) "0.4fzyo82mvyr") 1700000000000].

(** ** The rest of the service and of the Redis client *)

(** The reconnection delay of the Redis client:
    [(retries) => Math.min(retries * 50, 1000)]. *)
Definition reconnectStrategy (retries : Z) : Z :=
  Z.min (retries * 50) 1000.

(** [getStats()]: the number of distinct [userId] values over the registered
    sockets, and the number of registered sockets. *)
Record Stats := mkStats {
  stats_connectedUsers : nat;
  stats_totalSockets : nat
}.

Definition registered_userIds (st : State) : list (option string) :=
  (λ sid, sockets st !! sid ≫= userId) <$> connectedUsers st.

Definition getStats (st : State) : Stats :=
  mkStats (size (list_to_set (registered_userIds st) : gset (option string)))
          (length (connectedUsers st)).

(** What holds of the [connectedUsers] map in every state the service
    reaches. *)
Record registry_inv (st : State) : Prop := mkRegistryInv {
  registry_nodup : NoDup (connectedUsers st);
  registry_sound :
    ∀ sid, sid ∈ connectedUsers st →
      ∃ sock, sockets st !! sid = Some sock ∧ connected sock = true ∧
              is_Some (userId sock) ∧ is_Some (projectId sock);
  registry_complete :
    ∀ sid sock,
      sockets st !! sid = Some sock → connected sock = true →
      is_Some (projectId sock) → sid ∈ connectedUsers st
}.

(** Reading a key [<kind>:<userId>:<projectId>] back at its first colon. *)
Fixpoint before_colon (s : string) : string :=
  match s with
  | EmptyString => EmptyString
  | String c rest =>
      if Ascii.eqb c ":" then EmptyString else String c (before_colon rest)
  end.

Fixpoint after_colon (s : string) : string :=
  match s with
  | EmptyString => EmptyString
  | String c rest => if Ascii.eqb c ":" then rest else after_colon rest
  end.

Definition colon_free (s : string) : Prop :=
  before_colon s = s.

(** Messages whose handlers only relay. *)
Definition relay_only (msg : inbound) : bool :=
  match msg with
  | file_change _ | chat_message _ _ | typing_start | typing_stop => true
  | authenticate _ | cursor_update _ => false
  end.

(** Two tabs of one user in one project, and a third party. *)
Definition two_tabs : State :=
  (run [Connect "s1"; Connect "s2"; Connect "s3";
        Message "s1" (authenticate (Some (mkAuth "u1" "proj-1"))) 10;
        Message "s2" (authenticate (Some (mkAuth "u1" "proj-1"))) 11;
        Message "s3" (authenticate (Some (mkAuth "u3" "proj-1"))) 12] init).1.

(** Inputs that are a [cursor_update] message. *)
Definition is_cursor_update (i : input) : bool :=
  match i with
  | Message _ (cursor_update _) _ => true
  | _ => false
  end.

(** The user id an emitted event names as its author. *)
Definition payload_uid (p : outbound) : option string :=
  match p with
  | UserJoined uid _ _ | CursorUpdate uid _ _ | FileChange _ _ _ uid _
  | ChatMessage _ uid _ _ _ _ | TypingStart uid _ | TypingStop uid _
  | UserLeft uid _ _ => Some uid
  | AuthError _ | Custom _ _ => None
  end.

(** Inputs that write or delete a session record: a successful
    [authenticate] and the closing of a socket. *)
Definition touches_session (i : input) : bool :=
  match i with
  | Message _ (authenticate (Some _)) _ | Close _ _ => true
  | _ => false
  end.

(** Unfolding the guarded handlers in one go. *)
Create HintDb handlers.
#[local] Hint Unfold on_cursor_update on_file_change on_chat_message
  on_typing_start on_typing_stop : handlers.

(** * Proofs *)

(** ** Room index and socket table: basic facts *)

Lemma members_join sid room st r :
  members (join sid room st) r =
  if decide (room = r) then {[sid]} ∪ members st room else members st r.
Proof.
  unfold members, join; simpl. rewrite lookup_insert.
  destruct (decide (room = r)); subst; reflexivity.
Qed.

Lemma members_same_rooms st st' r :
  rooms st = rooms st' → members st r = members st' r.
Proof. unfold members. by intros ->. Qed.

Lemma members_leaveAll sid st r :
  members (leaveAll sid st) r = members st r ∖ {[sid]}.
Proof.
  unfold members, leaveAll; simpl. rewrite lookup_fmap.
  destruct (rooms st !! r); simpl; set_solver.
Qed.

Lemma is_connected_alter f sid st sid' :
  (∀ s, connected (f s) = connected s) →
  is_connected sid' (with_sockets (alter f sid) st) = is_connected sid' st.
Proof.
  intros Hf. unfold is_connected; simpl. rewrite lookup_alter.
  case_decide; subst; destruct (sockets st !! sid'); simpl; auto.
Qed.

Lemma lookup_connected st sid sock :
  sockets st !! sid = Some sock → connected sock = true →
  is_connected sid st = true.
Proof. unfold is_connected. by intros -> ->. Qed.

Lemma step_message sid msg now st :
  is_connected sid st = true →
  step (Message sid msg now) st = handle sid msg now st.
Proof. simpl. by intros ->. Qed.

Lemma run_app tr1 tr2 st :
  run (tr1 ++ tr2) st =
  let '(st1, out1) := run tr1 st in
  let '(st2, out2) := run tr2 st1 in
  (st2, (out1 ++ out2)%list).
Proof.
  revert st. induction tr1 as [|i tr1 IH]; intros st; simpl.
  - by destruct (run tr2 st).
  - destruct (step i st) as [sa oa]. rewrite IH.
    destruct (run tr1 sa) as [sb ob]. destruct (run tr2 sb) as [sc oc].
    by rewrite app_assoc.
Qed.

(** ** The guard [socket.userId && socket.projectId] *)

Lemma authenticated_spec sock u p :
  authenticated sock = Some (u, p) ↔
  userId sock = Some u ∧ projectId sock = Some p ∧ u ≠ "" ∧ p ≠ "".
Proof.
  unfold authenticated, truthy.
  destruct (userId sock) as [u'|], (projectId sock) as [p'|]; try naive_solver.
  destruct (String.eqb_spec u' ""), (String.eqb_spec p' ""); simpl; naive_solver.
Qed.

Lemma unset_not_authenticated sock :
  userId sock = None ∨ projectId sock = None → authenticated sock = None.
Proof.
  unfold authenticated. intros [-> | ->]; [done|]. by destruct (userId sock).
Qed.

Lemma guard_passes st sid sock u p :
  sockets st !! sid = Some sock → authenticated sock = Some (u, p) →
  sockets st !! sid ≫= authenticated = Some (u, p).
Proof. intros -> H. exact H. Qed.

Lemma closed_socket_guard st sid sock u p :
  sockets st !! sid = Some sock → authenticated sock = Some (u, p) →
  sockets (close_socket sid st) !! sid ≫= authenticated = Some (u, p).
Proof.
  intros Hs Ha. simpl. rewrite lookup_alter.
  destruct (decide (sid = sid)); [|done]. rewrite Hs. simpl.
  unfold authenticated in *. simpl. exact Ha.
Qed.

Lemma close_socket_disconnected st sid sock :
  sockets st !! sid = Some sock → is_connected sid (close_socket sid st) = false.
Proof.
  intros Hs. unfold is_connected. simpl. rewrite lookup_alter.
  destruct (decide (sid = sid)); [|done]. by rewrite Hs.
Qed.

(** ** The sockets of a room *)

Lemma elem_of_own_room st room c :
  c ∈ own_room st room ↔ c = room ∧ is_connected room st = true.
Proof. unfold own_room. destruct (is_connected room st); set_solver. Qed.

Lemma elem_of_room_sockets st room c :
  c ∈ room_sockets st room ↔
  c ∈ members st room ∨ (c = room ∧ is_connected room st = true).
Proof. unfold room_sockets. by rewrite elem_of_union, elem_of_own_room. Qed.

Lemma room_sockets_ext st st' room :
  rooms st = rooms st' → sockets st = sockets st' →
  room_sockets st room = room_sockets st' room.
Proof. unfold room_sockets, own_room, members, is_connected. by intros -> ->. Qed.

Lemma is_connected_close sid st x :
  is_connected x (close_socket sid st)
  = if decide (x = sid) then false else is_connected x st.
Proof.
  unfold is_connected. simpl. rewrite lookup_alter.
  destruct (decide (x = sid)) as [->|Hne].
  - destruct (decide (sid = sid)); [|done]. by destruct (sockets st !! sid).
  - by destruct (decide (sid = x)); [subst|].
Qed.

Lemma room_sockets_close sid st room :
  room_sockets (close_socket sid st) room = room_sockets st room ∖ {[sid]}.
Proof.
  apply set_eq. intros c.
  rewrite elem_of_difference, !elem_of_room_sockets, is_connected_close.
  rewrite (members_same_rooms _ (leaveAll sid st)) by reflexivity.
  rewrite members_leaveAll, elem_of_difference, elem_of_singleton.
  destruct (decide (room = sid)); naive_solver.
Qed.

Lemma is_connected_authenticate sid d now st x :
  is_connected x (on_authenticate sid (Some d) now st).1 = is_connected x st.
Proof.
  apply (is_connected_alter
           (λ s, mkSocket (Some (a_userId d)) (Some (a_projectId d)) (connected s))
           sid st x).
  done.
Qed.

Lemma on_authenticate_out sid d now st :
  (on_authenticate sid (Some d) now st).2
  = [socket_to sid (a_projectId d) (UserJoined (a_userId d) sid now)
       (on_authenticate sid (Some d) now st).1].
Proof. reflexivity. Qed.

(** ** The invariant is kept by every transition *)

Lemma inv_ext st st' :
  sockets st' = sockets st → rooms st' = rooms st → inv st → inv st'.
Proof.
  destruct st, st'; simpl; intros -> -> [H1 H2 H3 H4].
  split; unfold members, is_connected in *; simpl in *; eauto.
Qed.

Lemma inv_init : inv init.
Proof.
  split; unfold members, is_connected; simpl; intros *;
    rewrite ?lookup_empty; simpl; try set_solver; discriminate.
Qed.

(** Handlers other than a successful [authenticate] leave the socket table
    and the room index alone. *)
Lemma guarded_handlers_keep_index sid msg now st :
  (∀ d, msg ≠ authenticate (Some d)) →
  sockets (handle sid msg now st).1 = sockets st ∧
  rooms (handle sid msg now st).1 = rooms st.
Proof.
  intros Hmsg. destruct msg as [[d|]| | | | |]; simpl;
    [ by destruct (Hmsg d) | by split | .. ];
    autounfold with handlers;
    destruct (sockets st !! sid ≫= authenticated) as [[u p]|]; by split.
Qed.

Lemma on_disconnect_keeps_index sid now st :
  sockets (on_disconnect sid now st).1 = sockets st ∧
  rooms (on_disconnect sid now st).1 = rooms st.
Proof.
  unfold on_disconnect.
  destruct (sockets st !! sid ≫= authenticated) as [[u p]|]; by split.
Qed.

Lemma guarded_handlers_keep_registry sid msg now st :
  (∀ d, msg ≠ authenticate (Some d)) →
  connectedUsers (handle sid msg now st).1 = connectedUsers st.
Proof.
  intros Hmsg. destruct msg as [[d|]| | | | |]; simpl;
    [ by destruct (Hmsg d) | done | .. ];
    autounfold with handlers;
    by destruct (sockets st !! sid ≫= authenticated) as [[u p]|].
Qed.

Lemma elem_of_connectedUsers_set sid keys x :
  x ∈ connectedUsers_set sid keys ↔ x ∈ keys ∨ x = sid.
Proof.
  unfold connectedUsers_set.
  destruct (bool_decide_reflect (sid ∈ keys)).
  - naive_solver.
  - rewrite elem_of_app, list_elem_of_singleton. tauto.
Qed.

Lemma elem_of_connectedUsers_delete sid keys x :
  x ∈ connectedUsers_delete sid keys ↔ x ∈ keys ∧ x ≠ sid.
Proof. unfold connectedUsers_delete. rewrite list_elem_of_filter. tauto. Qed.

Lemma inv_connect sid st :
  sockets st !! sid = None →
  inv st → inv (with_sockets (insert sid (mkSocket None None true)) st).
Proof.
  intros Hnew [H1 H2 H3 H4].
  assert (Hout : ∀ r, sid ∉ members st r).
  { intros r Hin. apply H1 in Hin. unfold is_connected in Hin.
    by rewrite Hnew in Hin. }
  split; unfold is_connected; simpl.
  - intros r sid' Hin. change (sid' ∈ members st r) in Hin.
    rewrite lookup_insert. destruct (decide (sid = sid')); [done|].
    apply H1 in Hin. exact Hin.
  - intros sid' sock p. rewrite lookup_insert.
    destruct (decide (sid = sid')); [by intros [= <-]|]. apply H2.
  - intros sid' sock r. rewrite lookup_insert.
    destruct (decide (sid = sid')) as [<-|]; [intros _ _; apply Hout|]. apply H3.
  - intros sid' sock. rewrite lookup_insert.
    destruct (decide (sid = sid')); [by intros [= <-]|]. apply H4.
Qed.

Lemma authenticate_members sid d now st r x :
  x ∈ members (on_authenticate sid (Some d) now st).1 r ↔
  x ∈ members st r ∨ (r = a_projectId d ∧ x = sid).
Proof.
  simpl.
  rewrite (members_same_rooms _ (join sid (a_projectId d) st)) by reflexivity.
  rewrite members_join.
  destruct (decide (a_projectId d = r)); subst; set_solver.
Qed.

Lemma authenticate_others sid d now st :
  room_sockets (on_authenticate sid (Some d) now st).1 (a_projectId d) ∖ {[sid]}
  = room_sockets st (a_projectId d) ∖ {[sid]}.
Proof.
  apply set_eq. intros c.
  rewrite !elem_of_difference, !elem_of_room_sockets.
  rewrite authenticate_members, is_connected_authenticate.
  rewrite elem_of_singleton. naive_solver.
Qed.

Lemma authenticate_socket sid sock d now st :
  sockets st !! sid = Some sock →
  sockets (on_authenticate sid (Some d) now st).1 !! sid
  = Some (mkSocket (Some (a_userId d)) (Some (a_projectId d)) (connected sock)).
Proof.
  intros Hs. simpl. rewrite lookup_alter.
  destruct (decide (sid = sid)); [|done]. by rewrite Hs.
Qed.

Lemma inv_authenticate sid d now st :
  is_connected sid st = true →
  inv st → inv (on_authenticate sid (Some d) now st).1.
Proof.
  intros Hconn [H1 H2 H3 H4].
  set (f := λ s, mkSocket (Some (a_userId d)) (Some (a_projectId d)) (connected s)).
  set (st1 := with_sockets (alter f sid) st).
  apply (inv_ext (join sid (a_projectId d) st1)); [done | done |].
  assert (Hmem : ∀ r x, x ∈ members (join sid (a_projectId d) st1) r ↔
                        x ∈ members st r ∨ (r = a_projectId d ∧ x = sid)).
  { intros r x. rewrite members_join.
    change (members st1) with (members st).
    destruct (decide (a_projectId d = r)); subst; set_solver. }
  assert (Hlk : ∀ x, sockets (join sid (a_projectId d) st1) !! x =
                     if decide (sid = x) then f <$> sockets st !! sid
                     else sockets st !! x).
  { intros x. simpl. rewrite lookup_alter. by destruct (decide (sid = x)); subst. }
  assert (Hc : ∀ x, is_connected x (join sid (a_projectId d) st1) = is_connected x st).
  { intros x. apply (is_connected_alter f sid st x). done. }
  split.
  - intros r x. rewrite Hmem, Hc. intros [Hin|[_ ->]]; eauto.
  - intros x sock p. rewrite Hlk, Hmem.
    destruct (decide (sid = x)) as [<-|].
    + destruct (sockets st !! sid); simpl; [|done].
      intros [= <-] _ [= <-]. by right.
    + intros; left; eauto.
  - intros x sock r. rewrite Hlk, Hmem.
    destruct (decide (sid = x)) as [<-|].
    + destruct (sockets st !! sid); simpl; [|done]. by intros [= <-].
    + intros Hs Hp [Hin|[_ ->]]; [|done]. by eapply H3.
  - intros x sock. rewrite Hlk.
    destruct (decide (sid = x)) as [<-|]; [|apply H4].
    destruct (sockets st !! sid); simpl; [|done]. by intros [= <-].
Qed.

Lemma inv_close sid st :
  inv st → inv (close_socket sid st).
Proof.
  intros [H1 H2 H3 H4].
  set (f := λ s, mkSocket (userId s) (projectId s) false).
  assert (Hmem : ∀ r, members (close_socket sid st) r = members st r ∖ {[sid]}).
  { intros r. apply members_leaveAll. }
  assert (Hlk : ∀ x, sockets (close_socket sid st) !! x =
                     if decide (sid = x) then f <$> sockets st !! sid
                     else sockets st !! x).
  { intros x. simpl. rewrite lookup_alter. by destruct (decide (sid = x)); subst. }
  split.
  - intros r x. rewrite Hmem. intros [Hin Hne]%elem_of_difference.
    apply H1 in Hin. unfold is_connected in *. rewrite Hlk.
    destruct (decide (sid = x)); [set_solver | done].
  - intros x sock p. rewrite Hlk, Hmem.
    destruct (decide (sid = x)) as [<-|].
    + destruct (sockets st !! sid); simpl; [|done]. by intros [= <-].
    + intros. apply elem_of_difference. split; [eauto | set_solver].
  - intros x sock r. rewrite Hlk, Hmem.
    destruct (decide (sid = x)) as [<-|]; [set_solver|].
    intros Hs Hp [Hin _]%elem_of_difference. by eapply H3.
  - intros x sock. rewrite Hlk.
    destruct (decide (sid = x)) as [<-|]; [|apply H4].
    destruct (sockets st !! sid) eqn:E; simpl; [|done].
    intros [= <-]; simpl. by eapply H4.
Qed.

Lemma inv_step i st : inv st → inv (step i st).1.
Proof.
  intros Hinv. destruct i as [sid|sid msg now|sid now| |]; simpl; try done.
  - destruct (sockets st !! sid) eqn:E; simpl; [done|]. by apply inv_connect.
  - destruct (is_connected sid st) eqn:E; simpl; [|done].
    destruct msg as [[d|]| | | | |];
      [ by apply inv_authenticate | done | .. ];
      (eapply inv_ext; [ eapply guarded_handlers_keep_index
                       | eapply guarded_handlers_keep_index | done ]; done).
  - destruct (is_connected sid st) eqn:E; simpl; [|done].
    eapply inv_ext; [ eapply on_disconnect_keeps_index
                    | eapply on_disconnect_keeps_index | by apply inv_close ].
Qed.

Lemma inv_run tr st : inv st → inv (run tr st).1.
Proof.
  revert st. induction tr as [|i tr IH]; intros st Hinv; simpl; [done|].
  pose proof (inv_step i st Hinv) as Hs.
  destruct (step i st) as [s1 o1]; simpl in *.
  specialize (IH s1 Hs). by destruct (run tr s1).
Qed.

Lemma reachable_inv st : reachable st → inv st.
Proof. intros [tr <-]. apply inv_run, inv_init. Qed.

Lemma lobby_reachable : reachable lobby.
Proof. eexists. reflexivity. Qed.

Lemma duo_reachable : reachable duo.
Proof. eexists. reflexivity. Qed.

Lemma crossed_reachable : reachable crossed.
Proof. eexists. reflexivity. Qed.

Lemma reachable_step i st : reachable st → reachable (step i st).1.
Proof.
  intros [tr <-]. exists (tr ++ [i])%list. rewrite run_app.
  destruct (run tr init) as [s o]; simpl.
  by destruct (step i s).
Qed.

(** ** Fan-out targets *)

(** C1. In a reachable state, for a connected socket: an [authenticate],
    the first of an unauthenticated connection as well as a later one, emits
    [user_joined] once, to the sockets of the joined room except the sender,
    that is, to those that were in the room before. When the socket passes
    the authentication guard with user [u] and project [p]: a [chat_message]
    is emitted once, to every socket of room [p], the sender among them; a
    [cursor_update], [file_change], [typing_start] or [typing_stop] is emitted
    once, to the sockets of room [p] except the sender; closing the socket
    emits [user_left] once, to the sockets of room [p] except the sender. *)
Theorem broadcast_targets st sid sock now :
  reachable st →
  sockets st !! sid = Some sock → connected sock = true →
  (∀ d, ∃ e,
      (step (Message sid (authenticate (Some d)) now) st).2 = [e] ∧
      payload e = UserJoined (a_userId d) sid now ∧
      addr e = ToRoomExcept (a_projectId d) sid ∧
      recipients e =
        room_sockets (step (Message sid (authenticate (Some d)) now) st).1
          (a_projectId d) ∖ {[sid]} ∧
      recipients e = room_sockets st (a_projectId d) ∖ {[sid]} ∧
      sid ∉ recipients e) ∧
  (∀ u p,
      authenticated sock = Some (u, p) →
      (∀ data random36, ∃ e,
          (step (Message sid (chat_message data random36) now) st).2 = [e] ∧
          addr e = ToRoom p ∧ recipients e = room_sockets st p ∧
          sid ∈ recipients e) ∧
      (∀ msg, relayed msg = true → ∃ e,
          (step (Message sid msg now) st).2 = [e] ∧
          addr e = ToRoomExcept p sid ∧
          recipients e = room_sockets st p ∖ {[sid]} ∧
          sid ∉ recipients e) ∧
      (∃ e,
          (step (Close sid now) st).2 = [e] ∧
          payload e = UserLeft u sid now ∧
          addr e = ToRoomExcept p sid ∧
          recipients e = room_sockets st p ∖ {[sid]} ∧
          sid ∉ recipients e)).
Proof.
  intros Hreach Hs Hc.
  pose proof (lookup_connected _ _ _ Hs Hc) as Hconn.
  pose proof (reachable_inv _ Hreach) as Hinv.
  split.
  - intros d. rewrite (step_message _ _ _ _ Hconn). cbn [handle].
    rewrite on_authenticate_out.
    eexists. split; [reflexivity|]. cbn [payload addr recipients socket_to].
    split; [done|]. split; [done|]. split; [done|]. split; [|set_solver].
    apply set_eq. intros c.
    rewrite !elem_of_difference, !elem_of_room_sockets.
    rewrite authenticate_members, is_connected_authenticate.
    rewrite elem_of_singleton. naive_solver.
  - intros u p Ha.
    pose proof (guard_passes _ _ _ _ _ Hs Ha) as Hg.
    apply authenticated_spec in Ha as Hf. destruct Hf as (Hu & Hp & _ & _).
    split; [|split].
    + intros data random36. rewrite (step_message _ _ _ _ Hconn). cbn [handle].
      unfold on_chat_message. rewrite Hg.
      eexists. split; [reflexivity|]. cbn [addr recipients io_to].
      split; [done|]. split; [done|].
      apply elem_of_room_sockets. left. by eapply inv_project_member.
    + intros msg Hrel. rewrite (step_message _ _ _ _ Hconn).
      destruct msg; try discriminate; cbn [handle]; autounfold with handlers;
        rewrite Hg; (eexists; split; [reflexivity|]);
        cbn [addr recipients socket_to];
        (split; [done|]); (split; [|set_solver]);
        reflexivity.
    + cbn [step]. rewrite Hconn. unfold on_disconnect.
      rewrite (closed_socket_guard _ _ _ _ _ Hs Ha).
      eexists. split; [reflexivity|]. cbn [payload addr recipients socket_to].
      split; [done|]. split; [done|]. split; [|set_solver].
      rewrite (room_sockets_ext _ (close_socket sid st)) by reflexivity.
      rewrite room_sockets_close. set_solver.
Qed.

Lemma broadcast_targets_witness :
  (∃ e,
     (step (Message "s1" (authenticate (Some (mkAuth "u1" "proj-1"))) 20) lobby).2 = [e] ∧
     payload e = UserJoined "u1" "s1" 20 ∧
     addr e = ToRoomExcept "proj-1" "s1" ∧
     recipients e = room_sockets lobby "proj-1" ∖ {["s1"]}) ∧
  (∃ e,
     (step (Message "s1" (chat_message (mkChat "hi" None) "0.4fzyo82mvyr") 20) duo).2 = [e] ∧
     addr e = ToRoom "proj-1" ∧ recipients e = room_sockets duo "proj-1" ∧
     "s1" ∈ recipients e).
Proof.
  split.
  - destruct (proj1 (broadcast_targets lobby "s1" (mkSocket None None true) 20
                       lobby_reachable ltac:(vm_compute; reflexivity) eq_refl)
                    (mkAuth "u1" "proj-1"))
      as (e & Hout & Hpay & Haddr & _ & Hrec & _).
    exists e. repeat split; assumption.
  - exact (proj1 (proj2 (broadcast_targets duo "s1"
                           (mkSocket (Some "u1") (Some "proj-1") true) 20
                           duo_reachable ltac:(vm_compute; reflexivity) eq_refl)
                        "u1" "proj-1" eq_refl)
                 (mkChat "hi" None) "0.4fzyo82mvyr").
Defined.

(** The first join of the specification's scenario: [s2] is already in the
    room and is told that [u1] joined; [s1] itself is told nothing. *)
Example first_join_is_announced :
  map (λ e, (elements (recipients e), payload e))
      (step (Message "s1" (authenticate (Some (mkAuth "u1" "proj-1"))) 20) lobby).2
  = [(["s2"], UserJoined "u1" "s1" 20)].
Proof. vm_compute. reflexivity. Qed.

(** socket.io keeps each socket in the room named by its own id: a
    project id that is the id of a connected socket reaches that socket,
    whether it has authenticated or not. *)
Example own_id_room_is_reached :
  map (λ e, (elements (recipients e), payload e))
      (run [Message "s2" (authenticate (Some (mkAuth "u2" "s1"))) 20;
            Message "s2" (chat_message (mkChat "hi" None) "0.4fzyo82mvyr") 21] lobby).2
  = [(["s1"], UserJoined "u2" "s2" 20);
     (["s1"; "s2"], ChatMessage "msg_21_4fzyo82mv" "u2" "s1" "hi" "user" 21)].
Proof. vm_compute. reflexivity. Qed.

(** The scenario of the specification: [s1] moves its cursor, [s2] alone is
    told; [s1] chats, both are told, with one and the same id. *)
Example cursor_then_chat :
  map (λ e, (elements (recipients e), payload e))
      (run [Message "s1" (cursor_update (mkPosition 4 10)) 20;
            Message "s1" (chat_message (mkChat "hi" None) "0.4fzyo82mvyr") 21] duo).2
  = [(["s2"], CursorUpdate "u1" (mkPosition 4 10) 20);
     (["s1"; "s2"], ChatMessage "msg_21_4fzyo82mv" "u1" "proj-1" "hi" "user" 21)].
Proof. vm_compute. reflexivity. Qed.

(** ** Events before authentication *)

(** C2. A [cursor_update], [file_change], [chat_message], [typing_start] or
    [typing_stop] received on a socket whose [userId] or [projectId] is unset
    is dropped: nothing is emitted, to the room or to the sender, and the
    state, Redis store included, is left as it was. *)
Theorem unauthenticated_events_discarded st sid sock msg now :
  sockets st !! sid = Some sock →
  userId sock = None ∨ projectId sock = None →
  (∀ data, msg ≠ authenticate data) →
  step (Message sid msg now) st = (st, []).
Proof.
  intros Hs Hunset Hmsg. simpl.
  destruct (is_connected sid st); [|done].
  apply unset_not_authenticated in Hunset.
  destruct msg as [data| | | | |]; simpl; [by destruct (Hmsg data) | ..];
    autounfold with handlers; rewrite Hs; simpl; by rewrite Hunset.
Qed.

Lemma unauthenticated_events_discarded_witness :
  step (Message "s1" (chat_message (mkChat "hi" None) "0.4fzyo82mvyr") 20) lobby
  = (lobby, []).
Proof.
  apply (unauthenticated_events_discarded lobby "s1" (mkSocket None None true)).
  - reflexivity.
  - left; reflexivity.
  - intros data; discriminate.
Defined.

(** ** Authentication failure *)

Lemma auth_failed_no_payload sid data now st :
  auth_failed (on_authenticate sid data now st).2 = true ↔ data = None.
Proof. destruct data; simpl; split; (done || discriminate). Qed.

(** C4. When the [authenticate] handler fails (its [catch] branch emits
    [auth_error]), that reply is the only emission and goes to the offending
    socket alone, and the state is left as it was; a connection that was
    unauthenticated therefore remains so, with [userId] and [projectId]
    unset, and is a member of no room. *)
Theorem failed_authenticate_is_private st sid sock data now :
  reachable st →
  sockets st !! sid = Some sock → connected sock = true →
  auth_failed (step (Message sid (authenticate data) now) st).2 = true →
  (step (Message sid (authenticate data) now) st).2
    = [mkEmission (ToSocket sid) {[sid]} (AuthError "Authentication failed")] ∧
  (step (Message sid (authenticate data) now) st).1 = st ∧
  (userId sock = None → projectId sock = None →
   ∀ st', st' = (step (Message sid (authenticate data) now) st).1 →
     sockets st' !! sid = Some sock ∧ authenticated sock = None ∧
     ∀ r, sid ∉ members st' r).
Proof.
  intros Hreach Hs Hc. simpl.
  rewrite (lookup_connected _ _ _ Hs Hc). simpl.
  intros ->%auth_failed_no_payload. simpl. repeat split.
  - by subst.
  - apply unset_not_authenticated; by left.
  - subst. intros r. eapply inv_no_project_no_room; eauto using reachable_inv.
Qed.

Lemma failed_authenticate_is_private_witness :
  (step (Message "s1" (authenticate None) 20) lobby).2
    = [mkEmission (ToSocket "s1") {["s1"]} (AuthError "Authentication failed")] ∧
  (step (Message "s1" (authenticate None) 20) lobby).1 = lobby ∧
  ∀ r, "s1" ∉ members lobby r.
Proof.
  pose proof (failed_authenticate_is_private lobby "s1" (mkSocket None None true)
                None 20) as H.
  destruct H as (Hout & Hst & Hrem).
  - exact lobby_reachable.
  - vm_compute. reflexivity.
  - reflexivity.
  - reflexivity.
  - split; [exact Hout|]. split; [exact Hst|].
    intros r. refine (proj2 (proj2 (Hrem eq_refl eq_refl lobby _)) r).
    symmetry. exact Hst.
Defined.

(** ** Room membership *)

(** C5, as worded, fails: after a second [authenticate] carrying another
    project id the socket is a member of both rooms. *)
Lemma second_authenticate_keeps_first_room :
  ¬ one_room_per_connection switched.
Proof.
  intros H.
  specialize (H "s1" (mkSocket (Some "u1") (Some "proj-B") true) "proj-B").
  assert (Hin : "s1" ∈ members switched "proj-A").
  { refine (bool_decide_unpack _ _). vm_compute. exact I. }
  apply H in Hin; [discriminate | vm_compute; reflexivity | reflexivity | reflexivity].
Qed.

(** C5 (amended). In every reachable state a connected socket with a
    [projectId] is a member of that project's room, and a socket without one
    is a member of no room; a socket has one [projectId] at a time, and an
    [authenticate] sets it to the new project and adds that project's room
    to the rooms the socket is already in, leaving none: a socket that was
    unauthenticated ends up in exactly the one room. *)
Theorem room_membership_invariant st :
  reachable st →
  (∀ sid sock p,
      sockets st !! sid = Some sock → connected sock = true →
      projectId sock = Some p → sid ∈ members st p) ∧
  (∀ sid sock r,
      sockets st !! sid = Some sock → projectId sock = None →
      sid ∉ members st r) ∧
  (∀ sid sock d now st',
      sockets st !! sid = Some sock → connected sock = true →
      st' = (step (Message sid (authenticate (Some d)) now) st).1 →
      (∃ sock', sockets st' !! sid = Some sock' ∧
                projectId sock' = Some (a_projectId d)) ∧
      (∀ r, sid ∈ members st' r ↔ r = a_projectId d ∨ sid ∈ members st r) ∧
      (projectId sock = None → ∀ r, sid ∈ members st' r ↔ r = a_projectId d)).
Proof.
  intros Hinv%reachable_inv. split; [|split].
  - apply Hinv.
  - apply Hinv.
  - intros sid sock d now st' Hs Hc ->.
    rewrite (step_message _ _ _ _ (lookup_connected _ _ _ Hs Hc)). cbn [handle].
    split; [|split].
    + eexists. split; [by apply authenticate_socket|done].
    + intros r. rewrite authenticate_members. naive_solver.
    + intros Hnone r. rewrite authenticate_members.
      pose proof (inv_no_project_no_room _ Hinv sid sock r Hs Hnone).
      naive_solver.
Qed.

Lemma room_membership_invariant_witness :
  "s1" ∈ members duo "proj-1" ∧
  ∀ r, "s1" ∈ members
         (step (Message "s1" (authenticate (Some (mkAuth "u1" "proj-2"))) 30) duo).1 r
       ↔ r = "proj-2" ∨ "s1" ∈ members duo r.
Proof.
  destruct (room_membership_invariant duo duo_reachable) as (Hin & _ & Hauth).
  split.
  - apply (Hin "s1" (mkSocket (Some "u1") (Some "proj-1") true));
      [vm_compute|..]; reflexivity.
  - apply (Hauth "s1" (mkSocket (Some "u1") (Some "proj-1") true)
                 (mkAuth "u1" "proj-2") 30);
      [vm_compute|..]; reflexivity.
Defined.

(** ** Room isolation *)

(** C9, as worded, fails: [s1] has moved on to [proj-B] and still receives
    what [s2] says in [proj-A]. *)
Lemma old_room_broadcast_reaches_switched_connection :
  ¬ (∀ e,
       e ∈ (step (Message "s2" (chat_message (mkChat "hi" None) "0.4fzyo82mvyr") 30)
                 crossed).2 →
       isolated crossed e).
Proof.
  intros H.
  set (e := mkEmission (ToRoom "proj-A") {["s1"; "s2"]}
              (ChatMessage "msg_30_4fzyo82mv" "u2" "proj-A" "hi" "user" 30)).
  assert (He : (step (Message "s2" (chat_message (mkChat "hi" None) "0.4fzyo82mvyr") 30)
                     crossed).2 = [e]).
  { vm_compute. reflexivity. }
  specialize (H e). rewrite He in H.
  specialize (H ltac:(set_solver) "proj-A" "s1"
                (mkSocket (Some "u1") (Some "proj-B") true) "proj-B").
  discriminate H; [reflexivity | set_solver | vm_compute; reflexivity | reflexivity].
Qed.

Ltac within_room :=
  let c := fresh "c" in
  let Hc := fresh "Hc" in
  intros c Hc; first [ apply elem_of_difference in Hc as [Hc _]; exact Hc | exact Hc ].

Lemma room_emission_within_room_sockets i st e A :
  e ∈ (step i st).2 → room_of (addr e) = Some A →
  recipients e ⊆ room_sockets (step i st).1 A.
Proof.
  destruct i as [sid|sid msg now|sid now|uid event data|pid event data]; simpl.
  - destruct (sockets st !! sid); simpl; intros He; inversion He.
  - destruct (is_connected sid st); simpl; [|intros He; inversion He].
    destruct msg as [[d|]| | | | |]; simpl; autounfold with handlers.
    + intros ->%list_elem_of_singleton; simpl. intros [= <-]. within_room.
    + intros ->%list_elem_of_singleton. discriminate.
    + destruct (sockets st !! sid ≫= authenticated) as [[u p]|]; simpl;
        [|intros He; inversion He].
      intros ->%list_elem_of_singleton; simpl. intros [= <-]. within_room.
    + destruct (sockets st !! sid ≫= authenticated) as [[u p]|]; simpl;
        [|intros He; inversion He].
      intros ->%list_elem_of_singleton; simpl. intros [= <-]. within_room.
    + destruct (sockets st !! sid ≫= authenticated) as [[u p]|]; simpl;
        [|intros He; inversion He].
      intros ->%list_elem_of_singleton; simpl. intros [= <-]. within_room.
    + destruct (sockets st !! sid ≫= authenticated) as [[u p]|]; simpl;
        [|intros He; inversion He].
      intros ->%list_elem_of_singleton; simpl. intros [= <-]. within_room.
    + destruct (sockets st !! sid ≫= authenticated) as [[u p]|]; simpl;
        [|intros He; inversion He].
      intros ->%list_elem_of_singleton; simpl. intros [= <-]. within_room.
  - destruct (is_connected sid st); simpl; [|intros He; inversion He].
    unfold on_disconnect.
    destruct (sockets (close_socket sid st) !! sid ≫= authenticated) as [[u p]|];
      simpl; [|intros He; inversion He].
    intros ->%list_elem_of_singleton; simpl. intros [= <-]. within_room.
  - unfold sendToUser. intros (sid & _ & Hf)%list_elem_of_omap.
    destruct (sockets st !! sid) as [sock|]; [|done].
    destruct (bool_decide (userId sock = Some uid)); [|done].
    injection Hf as <-. discriminate.
  - intros ->%list_elem_of_singleton; simpl. intros [= <-]. within_room.
Qed.

(** A socket enters a room of the service only by its own [authenticate]
    carrying that room's name. *)
Lemma step_members_origin i st c A :
  c ∈ members (step i st).1 A →
  c ∈ members st A ∨
  ∃ d now, i = Message c (authenticate (Some d)) now ∧ a_projectId d = A.
Proof.
  destruct i as [sid|sid msg now|sid now|uid event data|pid event data]; simpl.
  - destruct (sockets st !! sid); simpl; by left.
  - destruct (is_connected sid st); simpl; [|by left].
    destruct msg as [[d|]| | | | |].
    1: { cbn [handle]. rewrite authenticate_members.
         intros [Hin|[-> ->]]; [by left|]. right. by exists d, now. }
    all: rewrite (members_same_rooms _ st); [by left|];
      apply guarded_handlers_keep_index; intros d'; discriminate.
  - destruct (is_connected sid st); simpl; [|by left].
    rewrite (members_same_rooms _ (close_socket sid st))
      by apply on_disconnect_keeps_index.
    rewrite (members_same_rooms _ (leaveAll sid st)) by reflexivity.
    rewrite members_leaveAll. set_solver.
  - by left.
  - by left.
Qed.

Lemma run_isolation tr st (J : string → string → Prop) :
  (∀ c A, c ∈ members st A → J c A) →
  (∀ e A c, e ∈ (run tr st).2 → room_of (addr e) = Some A → c ∈ recipients e →
            c = A ∨ J c A ∨ asked_to_join tr c A) ∧
  (∀ c A, c ∈ members (run tr st).1 A → J c A ∨ asked_to_join tr c A).
Proof.
  revert st J. induction tr as [|i tr IH]; intros st J HJ; simpl.
  - split; [|by auto]. intros e A c He. inversion He.
  - set (J' := λ c A, J c A ∨
                 ∃ d now, i = Message c (authenticate (Some d)) now ∧
                          a_projectId d = A).
    assert (HJ' : ∀ c A, c ∈ members (step i st).1 A → J' c A).
    { intros c A [Hin|Hnew]%step_members_origin; [left; by apply HJ|by right]. }
    assert (Hlift : ∀ c A, J' c A ∨ asked_to_join tr c A →
                           J c A ∨ asked_to_join (i :: tr) c A).
    { intros c A [[HJc|(d & now & -> & Hd)]|(d & now & Hin & Hd)].
      - by left.
      - right. exists d, now. split; [left|done].
      - right. exists d, now. split; [by right|done]. }
    pose proof (room_emission_within_room_sockets i st) as Hstep.
    destruct (IH (step i st).1 J' HJ') as [IHout IHmem].
    destruct (step i st) as [s1 o1]; simpl in *.
    destruct (run tr s1) as [s2 o2]; simpl in *.
    split.
    + intros e A c [He|He]%elem_of_app HA Hc.
      * apply (Hstep e A He HA) in Hc.
        apply elem_of_room_sockets in Hc as [Hin|[-> _]]; [|by left].
        right. apply Hlift. left. by apply HJ'.
      * destruct (IHout e A c He HA Hc) as [->|H]; [by left|].
        right. by apply Hlift.
    + intros c A Hin. by apply Hlift, IHmem.
Qed.

(** Whoever is sent what an event addresses to a room was among the
    sockets of that room before the event. *)
Lemma room_emission_from_before i st e A :
  e ∈ (step i st).2 → room_of (addr e) = Some A →
  recipients e ⊆ room_sockets st A.
Proof.
  destruct i as [sid|sid msg now|sid now|uid event data|pid event data];
    cbn [step].
  - destruct (sockets st !! sid); simpl; intros He; inversion He.
  - destruct (is_connected sid st); cbn [snd]; [|intros He; inversion He].
    destruct msg as [[d|]| | | | |]; cbn [handle].
    1: { rewrite on_authenticate_out.
         intros ->%list_elem_of_singleton. cbn [addr recipients socket_to room_of].
         intros [= <-]. rewrite authenticate_others. set_solver. }
    1: { simpl. intros ->%list_elem_of_singleton. discriminate. }
    all: autounfold with handlers;
      destruct (sockets st !! sid ≫= authenticated) as [[u p]|]; simpl;
      [|intros He; inversion He];
      intros ->%list_elem_of_singleton; simpl; intros [= <-]; within_room.
  - destruct (is_connected sid st); cbn [snd]; [|intros He; inversion He].
    unfold on_disconnect.
    destruct (sockets (close_socket sid st) !! sid ≫= authenticated) as [[u p]|];
      simpl; [|intros He; inversion He].
    intros ->%list_elem_of_singleton; simpl. intros [= <-].
    rewrite (room_sockets_ext _ (close_socket sid st)) by reflexivity.
    rewrite room_sockets_close. set_solver.
  - intros He HA.
    exact (room_emission_within_room_sockets (SendToUser uid event data) st e A He HA).
  - intros He HA.
    exact (room_emission_within_room_sockets (SendToProject pid event data) st e A He HA).
Qed.

(** C9 (amended). Over any run of the service, a socket that receives an
    emission addressed to room [A] has itself sent an [authenticate]
    carrying the project id [A] in the run, before the event that caused the
    emission, or has [A] as its own socket id; and when it receives it, it is
    connected and is in room [A] by one of these two ways. A socket that
    never asked to join [A], and is not named [A], is never sent what is
    addressed to [A]. *)
Theorem room_broadcast_stays_within_membership :
  (∀ tr e A c,
      e ∈ (run tr init).2 → room_of (addr e) = Some A → c ∈ recipients e →
      c = A ∨ asked_to_join tr c A) ∧
  (∀ tr i e A c,
      e ∈ (step i (run tr init).1).2 → room_of (addr e) = Some A →
      c ∈ recipients e →
      c = A ∨ asked_to_join tr c A) ∧
  (∀ st i e A c,
      reachable st →
      e ∈ (step i st).2 → room_of (addr e) = Some A → c ∈ recipients e →
      is_connected c (step i st).1 = true ∧
      (c ∈ members (step i st).1 A ∨ c = A)).
Proof.
  split; [|split].
  - intros tr e A c He HA Hc.
    destruct (run_isolation tr init (λ _ _, False)) as [Hout _].
    { intros c' A'. unfold members; simpl. rewrite lookup_empty. set_solver. }
    destruct (Hout e A c He HA Hc) as [?|[[]|?]]; auto.
  - intros tr i e A c He HA Hc.
    destruct (run_isolation tr init (λ _ _, False)) as [_ Hmem].
    { intros c' A'. unfold members; simpl. rewrite lookup_empty. set_solver. }
    apply (room_emission_from_before i _ e A He HA) in Hc.
    apply elem_of_room_sockets in Hc as [Hin|[-> _]]; [|by left].
    destruct (Hmem c A Hin) as [[]|?]. by right.
  - intros st i e A c Hreach He HA Hc.
    pose proof (reachable_inv _ (reachable_step i st Hreach)) as Hinv.
    apply (room_emission_within_room_sockets i st e A He HA) in Hc.
    apply elem_of_room_sockets in Hc as [Hin|[-> Hconn]].
    + split; [|by left]. by eapply inv_member_connected.
    + split; [done|by right].
Qed.

Lemma room_broadcast_stays_within_membership_witness :
  "s1" = "proj-A" ∨
  asked_to_join
    [Connect "s1"; Connect "s2";
     Message "s1" (authenticate (Some (mkAuth "u1" "proj-A"))) 10;
     Message "s2" (authenticate (Some (mkAuth "u2" "proj-A"))) 11;
     Message "s1" (authenticate (Some (mkAuth "u1" "proj-B"))) 20;
     Message "s2" (chat_message (mkChat "hi" None) "0.4fzyo82mvyr") 30]
    "s1" "proj-A".
Proof.
  refine (proj1 room_broadcast_stays_within_membership _
            (mkEmission (ToRoom "proj-A") {["s1"; "s2"]}
               (ChatMessage "msg_30_4fzyo82mv" "u2" "proj-A" "hi" "user" 30))
            "proj-A" "s1" _ _ _).
  - vm_compute. do 3 right. left.
  - reflexivity.
  - set_solver.
Defined.

(** ** getConnectedUsers *)

Lemma elem_of_set_spread_from seen users x :
  x ∈ set_spread_from seen users ↔ x ∈ users ∧ x ∉ seen.
Proof.
  revert seen. induction users as [|u rest IH]; intros seen; simpl.
  - set_solver.
  - destruct (bool_decide_reflect (u ∈ seen)) as [Hin|Hout].
    + rewrite IH. set_solver.
    + rewrite elem_of_cons, IH, !elem_of_cons.
      destruct (decide (x = u)); subst; naive_solver.
Qed.

Lemma NoDup_set_spread_from seen users : NoDup (set_spread_from seen users).
Proof.
  revert seen. induction users as [|u rest IH]; intros seen; simpl.
  - constructor.
  - destruct (bool_decide (u ∈ seen)); [apply IH|].
    constructor; [|apply IH].
    rewrite elem_of_set_spread_from. set_solver.
Qed.

Lemma elem_of_getConnectedUsers pid st u :
  u ∈ getConnectedUsers pid st ↔
  ∃ sid sock,
    sid ∈ connectedUsers st ∧ sockets st !! sid = Some sock ∧
    userId sock = Some u ∧ u ≠ "" ∧ projectId sock = Some pid.
Proof.
  unfold getConnectedUsers, set_spread.
  rewrite elem_of_set_spread_from, list_elem_of_omap. split.
  - intros [(sid & Hin & Hf) _]. exists sid.
    destruct (sockets st !! sid) as [sock|]; [|done]. exists sock.
    destruct (bool_decide_reflect (projectId sock = Some pid)); [|done].
    simpl in Hf. destruct (truthy (userId sock)) eqn:Ht; [|done].
    rewrite Hf in Ht. simpl in Ht.
    destruct (String.eqb_spec u ""); [done|]. done.
  - intros (sid & sock & Hin & Hs & Hu & Hne & Hp).
    split; [|set_solver]. exists sid. split; [done|]. rewrite Hs.
    rewrite bool_decide_true by done. rewrite Hu. simpl.
    by destruct (String.eqb_spec u "").
Qed.

(** C10. For every project id, [getConnectedUsers] returns a list without
    duplicates that contains a user id exactly when some socket registered
    in [connectedUsers] carries that user id (set and non-empty, which is
    what the function tests of an authenticated socket) and has the project
    as its [projectId]; sockets without a user id and sockets of other
    projects contribute nothing. For a non-empty project id these sockets
    are exactly the registered ones that pass the handlers' guard. *)
Theorem getConnectedUsers_spec pid st :
  NoDup (getConnectedUsers pid st) ∧
  ∀ u,
    (u ∈ getConnectedUsers pid st ↔
     ∃ sid sock,
       sid ∈ connectedUsers st ∧ sockets st !! sid = Some sock ∧
       userId sock = Some u ∧ u ≠ "" ∧ projectId sock = Some pid) ∧
    (pid ≠ "" →
     (u ∈ getConnectedUsers pid st ↔
      ∃ sid sock,
        sid ∈ connectedUsers st ∧ sockets st !! sid = Some sock ∧
        authenticated sock = Some (u, pid))).
Proof.
  split; [apply NoDup_set_spread_from|].
  intros u. split; [apply elem_of_getConnectedUsers|].
  intros Hpid. rewrite elem_of_getConnectedUsers.
  split; intros (sid & sock & Hin & Hs & H); exists sid, sock;
    (split; [done|]); (split; [done|]).
  - apply authenticated_spec. naive_solver.
  - apply authenticated_spec in H. naive_solver.
Qed.

Lemma getConnectedUsers_spec_witness :
  NoDup (getConnectedUsers "proj-1" duo) ∧
  ("u1" ∈ getConnectedUsers "proj-1" duo ↔
   ∃ sid sock,
     sid ∈ connectedUsers duo ∧ sockets duo !! sid = Some sock ∧
     authenticated sock = Some ("u1", "proj-1")).
Proof.
  destruct (getConnectedUsers_spec "proj-1" duo) as [Hnd Hu].
  split; [exact Hnd|]. apply (Hu "u1"). discriminate.
Defined.

Example getConnectedUsers_duo :
  getConnectedUsers "proj-1" duo = ["u1"; "u2"] ∧
  getConnectedUsers "proj-1" lobby = ["u2"] ∧
  getConnectedUsers "proj-A" crossed = ["u2"] ∧
  getConnectedUsers "proj-B" crossed = ["u1"].
Proof. repeat split; vm_compute; reflexivity. Qed.

(** With the empty string as project id the function's test and the
    handlers' guard part ways: the socket is listed, and its events are
    dropped. *)
Example empty_project_id_is_listed :
  getConnectedUsers "" nameless_project = ["u1"] ∧
  sockets nameless_project !! "s1" ≫= authenticated = None.
Proof. split; vm_compute; reflexivity. Qed.

(** ** Presence records and their TTLs *)

Lemma session_key_not_position_key u p u' p' :
  session_key u p ≠ position_key u' p'.
Proof. discriminate. Qed.

Lemma ttl_policy_insert store k e :
  ttl_policy store →
  (∃ u p, k = position_key u p ∧ ttl e = 60) ∨
  (∃ u p, k = session_key u p ∧ ttl e = 3600) →
  ttl_policy (<[k := e]> store).
Proof.
  intros Hpol Hnew k' e'. rewrite lookup_insert.
  destruct (decide (k = k')) as [<-|]; [by intros [= <-]|]. apply Hpol.
Qed.

Lemma ttl_policy_delete store k :
  ttl_policy store → ttl_policy (delete k store).
Proof.
  intros Hpol k' e'. rewrite lookup_delete.
  destruct (decide (k = k')); [done|]. apply Hpol.
Qed.

Lemma ttl_policy_step i st :
  ttl_policy (redis st) → ttl_policy (redis (step i st).1).
Proof.
  intros Hpol.
  destruct i as [sid|sid msg now|sid now| |]; simpl; try done.
  - by destruct (sockets st !! sid).
  - destruct (is_connected sid st); [|done].
    destruct msg as [[d|]|pos| | | |]; simpl; try done; autounfold with handlers.
    + apply ttl_policy_insert; [done|]. right. by exists (a_userId d), (a_projectId d).
    + destruct (sockets st !! sid ≫= authenticated) as [[u p]|]; simpl; [|done].
      apply ttl_policy_insert; [done|]. left. by exists u, p.
    + by destruct (sockets st !! sid ≫= authenticated) as [[u p]|].
    + by destruct (sockets st !! sid ≫= authenticated) as [[u p]|].
    + by destruct (sockets st !! sid ≫= authenticated) as [[u p]|].
    + by destruct (sockets st !! sid ≫= authenticated) as [[u p]|].
  - destruct (is_connected sid st); [|done]. unfold on_disconnect.
    destruct (sockets (close_socket sid st) !! sid ≫= authenticated) as [[u p]|];
      simpl; [|done].
    by apply ttl_policy_delete.
Qed.

Lemma ttl_policy_reachable st : reachable st → ttl_policy (redis st).
Proof.
  intros [tr <-].
  assert (H : ttl_policy (redis init)) by (intros k e; simpl; by rewrite lookup_empty).
  revert H. generalize init. induction tr as [|i tr IH]; intros st H; simpl; [done|].
  pose proof (ttl_policy_step i st H) as Hs.
  destruct (step i st) as [s1 o1]; simpl in *.
  specialize (IH s1 Hs). by destruct (run tr s1).
Qed.

Lemma get_expired store k e t :
  store !! k = Some e → written_at e + ttl e * 1000 < t →
  RedisService.get k t store = None.
Proof.
  intros Hk Hlt. unfold RedisService.get. rewrite Hk.
  destruct (Z.ltb_spec t (written_at e + ttl e * 1000)); [lia|done].
Qed.

(** C6. An [authenticate] writes the session record with a TTL of 3600
    seconds and a [cursor_update] of an authenticated socket writes the
    cursor record with a TTL of 60 seconds; in every reachable state a cursor
    record carries the TTL 60 and reads as absent once more than 60 seconds
    have passed since it was last written, and a session record carries the
    TTL 3600 and reads as absent once more than 3600 seconds have passed
    since it was last written. *)
Theorem presence_ttl st sid sock now :
  reachable st →
  sockets st !! sid = Some sock → connected sock = true →
  (∀ d,
      redis (step (Message sid (authenticate (Some d)) now) st).1
        !! session_key (a_userId d) (a_projectId d)
      = Some (mkEntry (SessionValue sid now true) now 3600)) ∧
  (∀ u p pos,
      authenticated sock = Some (u, p) →
      redis (step (Message sid (cursor_update pos) now) st).1 !! position_key u p
      = Some (mkEntry (CursorValue pos) now 60)) ∧
  (∀ u p e t,
      redis st !! position_key u p = Some e →
      ttl e = 60 ∧
      (written_at e + 60 * 1000 < t →
       RedisService.getCache (cursor_key u p) t (redis st) = None)) ∧
  (∀ u p e t,
      redis st !! session_key u p = Some e →
      ttl e = 3600 ∧
      (written_at e + 3600 * 1000 < t →
       RedisService.getCache (collaboration_key u p) t (redis st) = None)).
Proof.
  intros Hreach Hs Hc.
  pose proof (lookup_connected _ _ _ Hs Hc) as Hconn.
  pose proof (ttl_policy_reachable _ Hreach) as Hpol.
  split; [|split; [|split]].
  - intros d. rewrite (step_message _ _ _ _ Hconn). simpl.
    unfold RedisService.setCache, RedisService.setEx. apply lookup_insert_eq.
  - intros u p pos Ha. rewrite (step_message _ _ _ _ Hconn). cbn [handle].
    unfold on_cursor_update. rewrite (guard_passes _ _ _ _ _ Hs Ha). simpl.
    unfold RedisService.setCache, RedisService.setEx. apply lookup_insert_eq.
  - intros u p e t He.
    assert (Httl : ttl e = 60).
    { destruct (Hpol _ _ He) as [(u' & p' & _ & H)|(u' & p' & Hk & _)]; [done|].
      symmetry in Hk. by apply session_key_not_position_key in Hk. }
    split; [done|]. intros Hlt.
    eapply get_expired; [exact He|]. rewrite Httl. exact Hlt.
  - intros u p e t He.
    assert (Httl : ttl e = 3600).
    { destruct (Hpol _ _ He) as [(u' & p' & Hk & _)|(u' & p' & _ & H)]; [|done].
      by apply session_key_not_position_key in Hk. }
    split; [done|]. intros Hlt.
    eapply get_expired; [exact He|]. rewrite Httl. exact Hlt.
Qed.

Lemma presence_ttl_witness :
  redis (step (Message "s1" (cursor_update (mkPosition 4 10)) 100) duo).1
    !! position_key "u1" "proj-1"
  = Some (mkEntry (CursorValue (mkPosition 4 10)) 100 60) ∧
  RedisService.getCache (collaboration_key "u1" "proj-1") 3600011 (redis duo) = None.
Proof.
  destruct (presence_ttl duo "s1" (mkSocket (Some "u1") (Some "proj-1") true) 100)
    as (_ & Hcursor & _ & Hsession).
  - exact duo_reachable.
  - vm_compute. reflexivity.
  - reflexivity.
  - split.
    + apply Hcursor. reflexivity.
    + refine (proj2 (Hsession "u1" "proj-1"
                       (mkEntry (SessionValue "s1" 10 true) 10 3600) 3600011 _) _).
      * vm_compute. reflexivity.
      * simpl. lia.
Defined.

(** A cursor record read back just before and just after its 60 seconds. *)
Example cursor_record_expires :
  let st := (step (Message "s1" (cursor_update (mkPosition 4 10)) 100) duo).1 in
  RedisService.getCache (cursor_key "u1" "proj-1") 60099 (redis st)
    = Some (CursorValue (mkPosition 4 10)) ∧
  RedisService.getCache (cursor_key "u1" "proj-1") 60101 (redis st) = None.
Proof. split; vm_compute; reflexivity. Qed.

(** ** Departure notifications *)

Ltac guarded_case s st :=
  let e := fresh "e" in
  let He := fresh "He" in
  destruct (sockets st !! s ≫= authenticated) as [[? ?]|]; simpl;
  (split; [intros e He|done]);
  [apply list_elem_of_singleton in He as ->; reflexivity | inversion He].

Lemma step_without_close i st sid :
  (∀ now, i ≠ Close sid now) →
  (∀ e, e ∈ (step i st).2 → is_user_left sid e = false) ∧
  (∀ r, sid ∈ members st r → sid ∈ members (step i st).1 r).
Proof.
  intros Hi.
  destruct i as [s|s msg now|s now|uid event data|pid event data]; simpl.
  - destruct (sockets st !! s); simpl; split; (set_solver || done).
  - destruct (is_connected s st); simpl; [|split; (set_solver || done)].
    destruct msg as [[d|]| | | | |]; simpl; autounfold with handlers.
    + split; [by intros e ->%list_elem_of_singleton|].
      intros r Hin.
      rewrite (members_same_rooms _ (join s (a_projectId d) st)) by reflexivity.
      rewrite members_join. destruct (decide (a_projectId d = r)); subst; set_solver.
    + split; [|done]. by intros e ->%list_elem_of_singleton.
    + guarded_case s st.
    + guarded_case s st.
    + guarded_case s st.
    + guarded_case s st.
    + guarded_case s st.
  - destruct (is_connected s st); simpl; [|split; (set_solver || done)].
    assert (Hne : s ≠ sid) by (intros ->; by apply (Hi now)).
    unfold on_disconnect.
    destruct (sockets (close_socket s st) !! s ≫= authenticated) as [[u p]|];
      simpl; (split; [intros e He|intros r Hin]).
    + apply list_elem_of_singleton in He as ->. unfold is_user_left; simpl.
      by destruct (String.eqb_spec s sid).
    + rewrite (members_same_rooms _ (leaveAll s st)) by reflexivity.
      rewrite members_leaveAll. set_solver.
    + set_solver.
    + rewrite (members_same_rooms _ (leaveAll s st)) by reflexivity.
      rewrite members_leaveAll. set_solver.
  - split; [|done]. unfold sendToUser. intros e (s & _ & Hf)%list_elem_of_omap.
    destruct (sockets st !! s) as [sock|]; [|done].
    destruct (bool_decide (userId sock = Some uid)); [|done].
    by injection Hf as <-.
  - split; [|done]. by intros e ->%list_elem_of_singleton.
Qed.

(** X19. [user_left] is sent by the [disconnect] handler alone: over any
    sequence of events in which the transport does not deliver the
    [disconnect] of a socket, no [user_left] names that socket and the socket
    stays in every room it is in. In particular the expiry of a record in
    Redis makes nobody leave. *)
Theorem no_user_left_without_close tr st sid :
  (∀ now, Close sid now ∉ tr) →
  notifications_left sid (run tr st).2 = 0%nat ∧
  (∀ r, sid ∈ members st r → sid ∈ members (run tr st).1 r).
Proof.
  revert st. induction tr as [|i tr IH]; intros st Hno; simpl; [done|].
  destruct (step_without_close i st sid) as [Hout Hmem].
  { intros now ->. apply (Hno now). left. }
  destruct (IH (step i st).1) as [IHout IHmem].
  { intros now Hin. apply (Hno now). by right. }
  destruct (step i st) as [s1 o1]; simpl in *.
  destruct (run tr s1) as [s2 o2]; simpl in *.
  split; [|auto].
  unfold notifications_left in *. rewrite List.filter_app, length_app, IHout.
  rewrite Nat.add_0_r. clear -Hout.
  induction o1 as [|e o1 IHo]; simpl; [done|].
  rewrite (Hout e) by left. apply IHo. intros e' He'. apply Hout. by right.
Qed.

Lemma no_user_left_without_close_witness :
  notifications_left "s1" (run silent_drop init).2 = 0%nat.
Proof.
  refine (proj1 (no_user_left_without_close silent_drop init "s1" _)).
  intros now Hin. unfold silent_drop in Hin.
  repeat (apply elem_of_cons in Hin as [Hin|Hin]; [discriminate|]).
  inversion Hin.
Defined.





Lemma close_step st sid sock u p now :
  sockets st !! sid = Some sock → connected sock = true →
  authenticated sock = Some (u, p) →
  step (Close sid now) st =
  (with_connectedUsers (connectedUsers_delete sid)
     (removeCollaborationSession u p (close_socket sid st)),
   [mkEmission (ToRoomExcept p sid) (room_sockets st p ∖ {[sid]})
      (UserLeft u sid now)]).
Proof.
  intros Hs Hc Ha. cbn [step]. rewrite (lookup_connected _ _ _ Hs Hc).
  unfold on_disconnect. rewrite (closed_socket_guard _ _ _ _ _ Hs Ha).
  f_equal. f_equal. unfold socket_to. f_equal.
  rewrite (room_sockets_ext _ (close_socket sid st)) by reflexivity.
  rewrite room_sockets_close. set_solver.
Qed.

Lemma close_makes_gone st sid sock now :
  sockets st !! sid = Some sock → connected sock = true →
  gone (step (Close sid now) st).1 sid.
Proof.
  intros Hs Hc. cbn [step]. rewrite (lookup_connected _ _ _ Hs Hc). split.
  - rewrite (proj1 (on_disconnect_keeps_index _ _ _)). simpl.
    rewrite lookup_alter. destruct (decide (sid = sid)); [|done].
    rewrite Hs. simpl. eauto.
  - unfold is_connected. rewrite (proj1 (on_disconnect_keeps_index _ _ _)).
    fold (is_connected sid (close_socket sid st)).
    by eapply close_socket_disconnected.
  - intros r.
    rewrite (members_same_rooms _ (close_socket sid st))
      by apply on_disconnect_keeps_index.
    rewrite (members_same_rooms _ (leaveAll sid st)) by reflexivity.
    rewrite members_leaveAll. set_solver.
  - unfold on_disconnect.
    destruct (sockets (close_socket sid st) !! sid ≫= authenticated) as [[u p]|];
      simpl; rewrite elem_of_connectedUsers_delete; tauto.
Qed.



(** The scenario of the specification: [s1] is lost, and when the
    transport reports it [s2] is told once that [u1] left, however often the
    report is repeated. *)
Example lost_connection_scenario :
  map (λ e, (elements (recipients e), payload e))
      (run [Close "s1" 50; Message "s2" typing_start 51; Close "s1" 52] duo).2
  = [(["s2"], UserLeft "u1" "s1" 50); ([], TypingStart "u2" 51)].
Proof. vm_compute. reflexivity. Qed.

(** C8. When the transport closes an authenticated connection, the session
    record of its user and project is deleted from the store (and nothing
    else in the store changes), exactly one [user_left] carrying the user
    id, the socket id and the timestamp is emitted, to the sockets of the
    room except the closing one, and the socket leaves the registry and every
    room. Running the disconnect a second time for the same connection
    changes nothing and emits nothing: one notification over the two runs. *)
Theorem disconnect_cleanup st sid sock u p now :
  sockets st !! sid = Some sock → connected sock = true →
  authenticated sock = Some (u, p) →
  redis (step (Close sid now) st).1 !! session_key u p = None ∧
  redis (step (Close sid now) st).1 = delete (session_key u p) (redis st) ∧
  (∃ e, (step (Close sid now) st).2 = [e] ∧
        payload e = UserLeft u sid now ∧
        addr e = ToRoomExcept p sid ∧
        recipients e = room_sockets st p ∖ {[sid]} ∧
        sid ∉ recipients e) ∧
  notifications_left sid (step (Close sid now) st).2 = 1%nat ∧
  (sid ∉ connectedUsers (step (Close sid now) st).1) ∧
  (∀ r, sid ∉ members (step (Close sid now) st).1 r) ∧
  (∀ now', step (Close sid now') (step (Close sid now) st).1
           = ((step (Close sid now) st).1, [])) ∧
  (∀ now', notifications_left sid
             ((step (Close sid now) st).2 ++
              (step (Close sid now') (step (Close sid now) st).1).2)%list
           = 1%nat).
Proof.
  intros Hs Hc Ha.
  destruct (close_makes_gone st sid sock now Hs Hc) as [_ Hdis Hroom Hreg].
  assert (Hagain : ∀ now', step (Close sid now') (step (Close sid now) st).1
                           = ((step (Close sid now) st).1, [])).
  { intros now'. revert Hdis. generalize (step (Close sid now) st).1.
    intros s1 Hdis. cbn [step]. by rewrite Hdis. }
  assert (Hone : notifications_left sid (step (Close sid now) st).2 = 1%nat).
  { rewrite (close_step _ _ _ _ _ _ Hs Hc Ha). unfold notifications_left; simpl.
    unfold is_user_left; simpl. by rewrite String.eqb_refl. }
  split; [|split; [|split; [|split; [|split; [|split; [|split]]]]]];
    try done.
  - rewrite (close_step _ _ _ _ _ _ Hs Hc Ha). simpl.
    unfold RedisService.deleteCache, RedisService.del. apply lookup_delete_eq.
  - by rewrite (close_step _ _ _ _ _ _ Hs Hc Ha).
  - rewrite (close_step _ _ _ _ _ _ Hs Hc Ha). eexists.
    split; [reflexivity|]. simpl. repeat split. set_solver.
  - intros now'. rewrite Hagain. simpl. by rewrite app_nil_r.
Qed.

Lemma disconnect_cleanup_witness :
  notifications_left "s1" (step (Close "s1" 50) duo).2 = 1%nat ∧
  redis (step (Close "s1" 50) duo).1 !! session_key "u1" "proj-1" = None ∧
  notifications_left "s1"
    ((step (Close "s1" 50) duo).2 ++
     (step (Close "s1" 51) (step (Close "s1" 50) duo).1).2)%list = 1%nat.
Proof.
  destruct (disconnect_cleanup duo "s1" (mkSocket (Some "u1") (Some "proj-1") true)
              "u1" "proj-1" 50) as (Hdel & _ & _ & Hone & _ & _ & _ & Htwice).
  - vm_compute. reflexivity.
  - reflexivity.
  - reflexivity.
  - split; [exact Hone|]. split; [exact Hdel | exact (Htwice 51)].
Defined.

(** The scenario of the specification: [s1] closes, [s2] alone is told. *)
Example close_notifies_the_others :
  map (λ e, (elements (recipients e), payload e)) (step (Close "s1" 50) duo).2
  = [(["s2"], UserLeft "u1" "s1" 50)].
Proof. vm_compute. reflexivity. Qed.

(** ** Chat message ids *)

Lemma split_at_underscore s t :
  underscore_free s →
  before_underscore (s +:+ "_" +:+ t) = s ∧ after_underscore (s +:+ "_" +:+ t) = t.
Proof.
  unfold underscore_free. induction s as [|c s IH]; simpl; [done|].
  destruct (Ascii.eqb c "_"); [discriminate|].
  intros [= Hs]. by destruct (IH Hs) as [-> ->].
Qed.

Lemma uint_underscore_free d : underscore_free (NilEmpty.string_of_uint d).
Proof. unfold underscore_free. induction d; simpl; by rewrite ?IHd. Qed.

Lemma template_int_underscore_free n : underscore_free (template_int n).
Proof.
  unfold template_int, NilZero.string_of_int, NilZero.string_of_uint.
  destruct (Z.to_int n) as [d|d]; destruct d; unfold underscore_free; simpl;
    try done; by rewrite ?(uint_underscore_free d).
Qed.

Lemma template_int_parse n :
  Z.of_int <$> NilZero.int_of_string (template_int n) = Some n.
Proof.
  unfold template_int. rewrite NilZero.isi.
  - simpl. by rewrite DecimalZ.of_to.
  - destruct n; simpl; try discriminate.
    intros [= H]. by apply DecimalPos.Unsigned.to_uint_nonnil in H.
  - destruct n; simpl; try discriminate.
    intros [= H]. by apply DecimalPos.Unsigned.to_uint_nonnil in H.
Qed.

Lemma message_id_unfold now random36 :
  message_id now random36 =
  String "m" (String "s" (String "g" (String "_"
    (template_int now +:+ "_" +:+ substr 2 9 random36)))).
Proof. reflexivity. Qed.

Lemma id_timestamp_message_id now random36 :
  id_timestamp (message_id now random36) = Some now.
Proof.
  rewrite message_id_unfold. cbv beta iota delta [id_timestamp].
  destruct (split_at_underscore (template_int now) (substr 2 9 random36)
              (template_int_underscore_free now)) as [-> _].
  apply template_int_parse.
Qed.

Lemma id_suffix_message_id now random36 :
  id_suffix (message_id now random36) = substr 2 9 random36.
Proof.
  rewrite message_id_unfold. cbv beta iota delta [id_suffix].
  by destruct (split_at_underscore (template_int now) (substr 2 9 random36)
                 (template_int_underscore_free now)) as [_ ->].
Qed.

Lemma message_id_eq now1 r1 now2 r2 :
  message_id now1 r1 = message_id now2 r2 ↔
  now1 = now2 ∧ substr 2 9 r1 = substr 2 9 r2.
Proof.
  split.
  - intros H. split.
    + apply (f_equal id_timestamp) in H.
      rewrite !id_timestamp_message_id in H. by injection H.
    + apply (f_equal id_suffix) in H. by rewrite !id_suffix_message_id in H.
  - intros [-> H]. unfold message_id. by rewrite H.
Qed.

Lemma id_before_message_id now1 r1 now2 r2 :
  id_before (message_id now1 r1) (message_id now2 r2) ↔ now1 < now2.
Proof. unfold id_before. by rewrite !id_timestamp_message_id. Qed.

(** C3, as worded, fails: two chat messages handled in the same
    millisecond with the same random draw are broadcast in one room under
    one id. *)
Lemma chat_ids_can_repeat :
  chat_ids "proj-1" (run same_instant duo).2
    = ["msg_1700000000000_4fzyo82mv"; "msg_1700000000000_4fzyo82mv"] ∧
  ¬ NoDup (chat_ids "proj-1" (run same_instant duo).2).
Proof.
  assert (H : chat_ids "proj-1" (run same_instant duo).2
              = ["msg_1700000000000_4fzyo82mv"; "msg_1700000000000_4fzyo82mv"]).
  { vm_compute. reflexivity. }
  split; [exact H|]. rewrite H. intros Hnd.
  apply NoDup_cons in Hnd as [Hnotin _]. apply Hnotin. left.
Qed.

(** C3 (amended). The id of a chat message is [msg_], the millisecond
    clock reading, an underscore and up to nine characters of a random draw.
    Two chat messages broadcast in the same room carry the same id exactly
    when both the clock reading and the random suffix coincide, so their ids
    are distinct whenever either differs; the id carries the clock reading,
    and of two messages the one handled at a strictly later reading has the
    id ordered after the other's. No order is fixed between messages of one
    millisecond. *)
Theorem chat_message_ids st1 st2 sid1 sid2 sock1 sock2 u1 u2 p d1 d2 r1 r2 now1 now2 :
  sockets st1 !! sid1 = Some sock1 → connected sock1 = true →
  authenticated sock1 = Some (u1, p) →
  sockets st2 !! sid2 = Some sock2 → connected sock2 = true →
  authenticated sock2 = Some (u2, p) →
  ∃ id1 id2,
    chat_ids p (step (Message sid1 (chat_message d1 r1) now1) st1).2 = [id1] ∧
    chat_ids p (step (Message sid2 (chat_message d2 r2) now2) st2).2 = [id2] ∧
    id_timestamp id1 = Some now1 ∧ id_timestamp id2 = Some now2 ∧
    (id1 = id2 ↔ now1 = now2 ∧ substr 2 9 r1 = substr 2 9 r2) ∧
    (now1 ≠ now2 ∨ substr 2 9 r1 ≠ substr 2 9 r2 → id1 ≠ id2) ∧
    (id_before id1 id2 ↔ now1 < now2).
Proof.
  intros Hs1 Hc1 Ha1 Hs2 Hc2 Ha2.
  exists (message_id now1 r1), (message_id now2 r2).
  rewrite !step_message by eauto using lookup_connected. cbn [handle].
  unfold on_chat_message.
  rewrite (guard_passes _ _ _ _ _ Hs1 Ha1), (guard_passes _ _ _ _ _ Hs2 Ha2).
  unfold chat_ids. cbn [omap list_omap payload io_to snd]. rewrite String.eqb_refl.
  split; [done|]. split; [done|].
  split; [apply id_timestamp_message_id|]. split; [apply id_timestamp_message_id|].
  split; [apply message_id_eq|]. split; [|apply id_before_message_id].
  intros Hdiff Heq. apply message_id_eq in Heq. tauto.
Qed.

Lemma chat_message_ids_witness :
  ∃ id1 id2,
    chat_ids "proj-1"
      (step (Message "s1" (chat_message (mkChat "hi" None) "0.4fzyo82mvyr") 20) duo).2
      = [id1] ∧
    chat_ids "proj-1"
      (step (Message "s2" (chat_message (mkChat "yo" None) "0.k3j9x0a1bq7") 21) duo).2
      = [id2] ∧
    id1 ≠ id2 ∧ id_before id1 id2.
Proof.
  destruct (chat_message_ids duo duo "s1" "s2"
              (mkSocket (Some "u1") (Some "proj-1") true)
              (mkSocket (Some "u2") (Some "proj-1") true)
              "u1" "u2" "proj-1" (mkChat "hi" None) (mkChat "yo" None)
              "0.4fzyo82mvyr" "0.k3j9x0a1bq7" 20 21)
    as (id1 & id2 & H1 & H2 & _ & _ & _ & Hne & Hlt).
  - vm_compute. reflexivity.
  - reflexivity.
  - reflexivity.
  - vm_compute. reflexivity.
  - reflexivity.
  - reflexivity.
  - exists id1, id2. split; [exact H1|]. split; [exact H2|]. split.
    + apply Hne. left. discriminate.
    + apply Hlt. reflexivity.
Defined.

Example message_id_format :
  message_id 1700000000000 "0.4fzyo82mvyr" = "msg_1700000000000_4fzyo82mv" ∧
  message_id 5 "0" = "msg_5_" ∧
  id_timestamp "msg_1700000000000_4fzyo82mv" = Some 1700000000000.
Proof. repeat split; vm_compute; reflexivity. Qed.

(** * Further properties of the service *)

(** ** The registry of authenticated sockets *)

Lemma registry_ext st st' :
  sockets st' = sockets st → connectedUsers st' = connectedUsers st →
  registry_inv st → registry_inv st'.
Proof.
  destruct st, st'; simpl; intros -> -> [H1 H2 H3].
  split; simpl in *; eauto.
Qed.

Lemma registry_init : registry_inv init.
Proof.
  split; simpl.
  - constructor.
  - intros sid Hin. inversion Hin.
  - intros sid sock. by rewrite lookup_empty.
Qed.

Lemma NoDup_connectedUsers_set sid keys :
  NoDup keys → NoDup (connectedUsers_set sid keys).
Proof.
  intros Hnd. unfold connectedUsers_set.
  destruct (bool_decide_reflect (sid ∈ keys)); [done|].
  apply NoDup_app. split; [done|]. split.
  - intros x Hx ->%list_elem_of_singleton. done.
  - apply NoDup_singleton.
Qed.

Lemma NoDup_connectedUsers_delete sid keys :
  NoDup keys → NoDup (connectedUsers_delete sid keys).
Proof. apply NoDup_filter. Qed.

Lemma registry_connect sid st :
  sockets st !! sid = None →
  registry_inv st →
  registry_inv (with_sockets (insert sid (mkSocket None None true)) st).
Proof.
  intros Hnew [H1 H2 H3]. split; simpl.
  - done.
  - intros x Hx. destruct (H2 x Hx) as (sock & Hs & Hrest).
    exists sock. rewrite lookup_insert_ne; [done|]. by intros ->; rewrite Hnew in Hs.
  - intros x sock. rewrite lookup_insert.
    destruct (decide (sid = x)) as [<-|].
    + intros [= <-]; simpl. by intros _ [? ?].
    + apply H3.
Qed.

Lemma registry_authenticate sid d now st :
  is_connected sid st = true →
  registry_inv st → registry_inv (on_authenticate sid (Some d) now st).1.
Proof.
  intros Hconn [H1 H2 H3].
  set (f := λ s, mkSocket (Some (a_userId d)) (Some (a_projectId d)) (connected s)).
  assert (Hlk : ∀ x, sockets (on_authenticate sid (Some d) now st).1 !! x =
                     if decide (sid = x) then f <$> sockets st !! sid
                     else sockets st !! x).
  { intros x. simpl. rewrite lookup_alter. by destruct (decide (sid = x)); subst. }
  unfold is_connected in Hconn.
  destruct (sockets st !! sid) as [s0|] eqn:Hs0; [|done].
  split.
  - simpl. by apply NoDup_connectedUsers_set.
  - intros x. simpl connectedUsers. rewrite elem_of_connectedUsers_set, Hlk.
    destruct (decide (sid = x)) as [<-|Hne].
    + intros _. eexists. split; [done|]. simpl. eauto.
    + intros [Hx| ->]; [by apply H2|done].
  - intros x sock. rewrite Hlk. simpl connectedUsers.
    rewrite elem_of_connectedUsers_set.
    destruct (decide (sid = x)) as [<-|Hne]; [by right|].
    intros. left. eauto.
Qed.

Lemma registry_close sid now st :
  registry_inv st → registry_inv (on_disconnect sid now (close_socket sid st)).1.
Proof.
  intros [H1 H2 H3].
  set (f := λ s, mkSocket (userId s) (projectId s) false).
  assert (Hlk : ∀ x, sockets (on_disconnect sid now (close_socket sid st)).1 !! x =
                     if decide (sid = x) then f <$> sockets st !! sid
                     else sockets st !! x).
  { intros x. rewrite (proj1 (on_disconnect_keeps_index _ _ _)). simpl.
    rewrite lookup_alter. by destruct (decide (sid = x)); subst. }
  assert (Hreg : connectedUsers (on_disconnect sid now (close_socket sid st)).1
                 = connectedUsers_delete sid (connectedUsers st)).
  { unfold on_disconnect.
    by destruct (sockets (close_socket sid st) !! sid ≫= authenticated) as [[u p]|]. }
  split; rewrite ?Hreg.
  - by apply NoDup_connectedUsers_delete.
  - intros x [Hx Hne]%elem_of_connectedUsers_delete. rewrite Hlk.
    destruct (decide (sid = x)); [done|]. by apply H2.
  - intros x sock. rewrite Hlk, elem_of_connectedUsers_delete.
    destruct (decide (sid = x)) as [<-|Hne].
    + destruct (sockets st !! sid); simpl; [|done]. by intros [= <-].
    + intros. split; [eauto|done].
Qed.

Lemma registry_step i st : registry_inv st → registry_inv (step i st).1.
Proof.
  intros Hinv. destruct i as [sid|sid msg now|sid now| |]; simpl; try done.
  - destruct (sockets st !! sid) eqn:E; simpl; [done|]. by apply registry_connect.
  - destruct (is_connected sid st) eqn:E; simpl; [|done].
    destruct msg as [[d|]| | | | |];
      [ by apply registry_authenticate | done | .. ];
      (eapply registry_ext;
       [ eapply guarded_handlers_keep_index
       | eapply guarded_handlers_keep_registry | done ]; done).
  - destruct (is_connected sid st) eqn:E; simpl; [|done].
    by apply registry_close.
Qed.

Lemma reachable_registry st : reachable st → registry_inv st.
Proof.
  intros [tr <-]. generalize registry_init. generalize init.
  induction tr as [|i tr IH]; intros st H; simpl; [done|].
  pose proof (registry_step i st H) as Hs.
  destruct (step i st) as [s1 o1]; simpl in *.
  specialize (IH s1 Hs). by destruct (run tr s1).
Qed.

Lemma two_tabs_reachable : reachable two_tabs.
Proof. eexists. reflexivity. Qed.

(** X1. In every reachable state the [connectedUsers] map holds each socket
    at most once, and holds exactly the sockets that are connected and have
    been through a successful [authenticate] (user id and project id set):
    the handler registers the socket, the [disconnect] handler removes it, and
    nothing else touches the map. *)
Theorem registry_tracks_authenticated_sockets st :
  reachable st →
  NoDup (connectedUsers st) ∧
  ∀ sid,
    sid ∈ connectedUsers st ↔
    ∃ sock, sockets st !! sid = Some sock ∧ connected sock = true ∧
            is_Some (userId sock) ∧ is_Some (projectId sock).
Proof.
  intros Hreach. destruct (reachable_registry _ Hreach) as [H1 H2 H3].
  split; [done|]. intros sid. split; [apply H2|].
  intros (sock & Hs & Hc & _ & Hp). eauto.
Qed.

Lemma registry_tracks_authenticated_sockets_witness :
  NoDup (connectedUsers two_tabs) ∧
  ("s2" ∈ connectedUsers two_tabs ↔
   ∃ sock, sockets two_tabs !! "s2" = Some sock ∧ connected sock = true ∧
           is_Some (userId sock) ∧ is_Some (projectId sock)).
Proof.
  destruct (registry_tracks_authenticated_sockets two_tabs two_tabs_reachable)
    as [Hnd Hiff].
  split; [exact Hnd | exact (Hiff "s2")].
Defined.

(** ** getStats *)

Lemma size_list_to_set_le (l : list (option string)) :
  (size (list_to_set l : gset (option string)) ≤ length l)%nat.
Proof.
  induction l as [|x l IH].
  - by rewrite list_to_set_nil, size_empty.
  - rewrite list_to_set_cons. simpl length.
    destruct (decide (x ∈ l)) as [Hin|Hout].
    + replace ({[x]} ∪ list_to_set l : gset (option string))
        with (list_to_set l : gset (option string)) by set_solver.
      lia.
    + rewrite size_union by set_solver. rewrite size_singleton. lia.
Qed.

Lemma listed_user_is_registered pid st u :
  u ∈ getConnectedUsers pid st → Some u ∈ registered_userIds st.
Proof.
  intros (sid & sock & Hin & Hs & Hu & _)%elem_of_getConnectedUsers.
  unfold registered_userIds. apply list_elem_of_fmap.
  exists sid. split; [|done]. by rewrite Hs.
Qed.

(** X2. [getStats] never reports more users than sockets, reports no user
    exactly when no socket is registered, and for any project reports at
    least as many users as [getConnectedUsers] lists for it. *)
Theorem getStats_bounds st :
  (stats_connectedUsers (getStats st) ≤ stats_totalSockets (getStats st))%nat ∧
  (stats_connectedUsers (getStats st) = 0%nat ↔ connectedUsers st = []) ∧
  (∀ pid,
      (length (getConnectedUsers pid st) ≤ stats_connectedUsers (getStats st))%nat).
Proof.
  unfold getStats; simpl. split; [|split].
  - etrans; [apply size_list_to_set_le|]. unfold registered_userIds.
    by rewrite length_fmap.
  - rewrite size_empty_iff. unfold registered_userIds.
    destruct (connectedUsers st) as [|sid l]; simpl; [done|].
    split; [|done]. intros Hempty. exfalso.
    assert (H : sockets st !! sid ≫= userId
                ∈ ({[sockets st !! sid ≫= userId]} ∪ list_to_set
                     ((λ sid0, sockets st !! sid0 ≫= userId) <$> l)
                   : gset (option string))) by set_solver.
    rewrite Hempty in H. set_solver.
  - intros pid.
    assert (Hnd : NoDup (getConnectedUsers pid st))
      by apply NoDup_set_spread_from.
    rewrite <- (length_fmap Some).
    rewrite <- (size_list_to_set (C := gset (option string)))
      by (by apply (NoDup_fmap_2 Some)).
    apply subseteq_size. intros x. rewrite !elem_of_list_to_set.
    intros (u & -> & Hu)%list_elem_of_fmap. by eapply listed_user_is_registered.
Qed.

Example getStats_two_tabs :
  getStats two_tabs = mkStats 2 3 ∧ getStats init = mkStats 0 0 ∧
  getConnectedUsers "proj-1" two_tabs = ["u1"; "u3"].
Proof. repeat split; vm_compute; reflexivity. Qed.

(** ** sendToUser and sendToProject *)

Lemma elem_of_sendToUser uid event data st e :
  e ∈ sendToUser uid event data st ↔
  ∃ sid, sid ∈ connectedUsers st ∧ sockets st !! sid ≫= userId = Some uid ∧
         e = socket_emit sid (Custom event data).
Proof.
  unfold sendToUser. rewrite list_elem_of_omap. split.
  - intros (sid & Hin & Hf). exists sid. split; [done|].
    destruct (sockets st !! sid) as [sock|]; [|done]. simpl.
    destruct (bool_decide_reflect (userId sock = Some uid)); [|done].
    by injection Hf as <-.
  - intros (sid & Hin & Hu & ->). exists sid. split; [done|].
    destruct (sockets st !! sid) as [sock|]; [|done]. simpl in Hu.
    by rewrite bool_decide_true.
Qed.

Lemma NoDup_sendToUser uid event data st :
  NoDup (connectedUsers st) → NoDup (sendToUser uid event data st).
Proof.
  unfold sendToUser. induction (connectedUsers st) as [|sid l IH]; simpl.
  - constructor.
  - intros [Hout Hnd]%NoDup_cons. specialize (IH Hnd).
    destruct (sockets st !! sid) as [sock|]; [|done].
    destruct (bool_decide (userId sock = Some uid)); [|done].
    constructor; [|done].
    intros (sid' & Hin & Hf)%list_elem_of_omap.
    destruct (sockets st !! sid') as [sock'|]; [|done].
    destruct (bool_decide (userId sock' = Some uid)); [|done].
    injection Hf as ->. done.
Qed.

(** X3. [sendToUser] changes nothing in the service and sends the event
    separately to each socket by itself: a socket is sent the event exactly
    when it is registered in [connectedUsers] and its [userId] is the given
    one; every such socket is connected and is sent it once. A user without
    a registered socket is sent nothing. *)
Theorem sendToUser_reaches_user_sockets st uid event data :
  reachable st →
  (step (SendToUser uid event data) st).1 = st ∧
  (∀ e, e ∈ (step (SendToUser uid event data) st).2 →
        ∃ sid, e = mkEmission (ToSocket sid) {[sid]} (Custom event data) ∧
               is_connected sid st = true) ∧
  (∀ sid,
      mkEmission (ToSocket sid) {[sid]} (Custom event data)
        ∈ (step (SendToUser uid event data) st).2 ↔
      sid ∈ connectedUsers st ∧ sockets st !! sid ≫= userId = Some uid) ∧
  NoDup (step (SendToUser uid event data) st).2.
Proof.
  intros Hreg%reachable_registry. cbn [step fst snd].
  split; [done|]. split; [|split].
  - intros e (sid & Hin & _ & ->)%elem_of_sendToUser. exists sid. split; [done|].
    destruct (registry_sound _ Hreg sid Hin) as (sock & Hs & Hc & _).
    by eapply lookup_connected.
  - intros sid. rewrite elem_of_sendToUser. split.
    + intros (sid' & Hin & Hu & Heq). unfold socket_emit in Heq.
      injection Heq as ->. done.
    + intros [Hin Hu]. by exists sid.
  - apply NoDup_sendToUser, Hreg.
Qed.

Lemma sendToUser_reaches_user_sockets_witness :
  (∀ sid,
      mkEmission (ToSocket sid) {[sid]} (Custom "notify" "{}")
        ∈ (step (SendToUser "u1" "notify" "{}") two_tabs).2 ↔
      sid ∈ connectedUsers two_tabs ∧ sockets two_tabs !! sid ≫= userId = Some "u1") ∧
  NoDup (step (SendToUser "u1" "notify" "{}") two_tabs).2.
Proof.
  destruct (sendToUser_reaches_user_sockets two_tabs "u1" "notify" "{}"
              two_tabs_reachable) as (_ & _ & Hiff & Hnd).
  split; [exact Hiff | exact Hnd].
Defined.

Example sendToUser_two_tabs :
  map (λ e, (addr e, payload e)) (sendToUser "u1" "notify" "{}" two_tabs)
    = [(ToSocket "s1", Custom "notify" "{}"); (ToSocket "s2", Custom "notify" "{}")] ∧
  sendToUser "nobody" "notify" "{}" two_tabs = [].
Proof. split; vm_compute; reflexivity. Qed.

(** X4. [sendToProject] changes nothing in the service and emits the event
    once, to the sockets of the project's room (those that joined it, and
    the socket whose own id is that name); in a reachable state these
    include every registered socket whose [projectId] is the project, so
    every user that [getConnectedUsers] lists for the project is reached on
    at least one socket. *)
Theorem sendToProject_covers_project st pid event data :
  reachable st →
  ∃ e,
    step (SendToProject pid event data) st = (st, [e]) ∧
    addr e = ToRoom pid ∧ payload e = Custom event data ∧
    recipients e = room_sockets st pid ∧
    (∀ sid sock,
        sid ∈ connectedUsers st → sockets st !! sid = Some sock →
        projectId sock = Some pid → sid ∈ recipients e) ∧
    (∀ u, u ∈ getConnectedUsers pid st →
          ∃ sid sock, sid ∈ recipients e ∧ sockets st !! sid = Some sock ∧
                      userId sock = Some u).
Proof.
  intros Hreach.
  pose proof (reachable_inv _ Hreach) as Hinv.
  pose proof (reachable_registry _ Hreach) as Hreg.
  assert (Hcover : ∀ sid sock,
             sid ∈ connectedUsers st → sockets st !! sid = Some sock →
             projectId sock = Some pid → sid ∈ members st pid).
  { intros sid sock Hin Hs Hp.
    destruct (registry_sound _ Hreg sid Hin) as (sock' & Hs' & Hc & _).
    rewrite Hs in Hs'. injection Hs' as <-.
    by eapply inv_project_member. }
  eexists. split; [reflexivity|]. cbn [addr payload recipients io_to].
  split; [done|]. split; [done|]. split; [done|]. split.
  - intros sid sock Hin Hs Hp. apply elem_of_room_sockets. left. eauto.
  - intros u (sid & sock & Hin & Hs & Hu & _ & Hp)%elem_of_getConnectedUsers.
    exists sid, sock. split; [|done]. apply elem_of_room_sockets. left. eauto.
Qed.

Lemma sendToProject_covers_project_witness :
  ∃ e,
    step (SendToProject "proj-1" "notify" "{}") two_tabs = (two_tabs, [e]) ∧
    recipients e = room_sockets two_tabs "proj-1".
Proof.
  destruct (sendToProject_covers_project two_tabs "proj-1" "notify" "{}"
              two_tabs_reachable) as (e & Hstep & _ & _ & Hrec & _).
  exists e. split; [exact Hstep | exact Hrec].
Defined.

(** ** Who can be reached at all *)

Lemma direct_emission_connected i st e c :
  registry_inv st →
  e ∈ (step i st).2 → room_of (addr e) = None → c ∈ recipients e →
  is_connected c (step i st).1 = true.
Proof.
  intros Hreg.
  destruct i as [sid|sid msg now|sid now|uid event data|pid event data]; simpl.
  - destruct (sockets st !! sid); simpl; intros He; inversion He.
  - destruct (is_connected sid st) eqn:Hconn; simpl; [|intros He; inversion He].
    destruct msg as [[d|]| | | | |]; simpl; autounfold with handlers;
      try destruct (sockets st !! sid ≫= authenticated) as [[u p]|]; simpl;
      intros He; try (by inversion He);
      apply list_elem_of_singleton in He as ->; simpl; try discriminate.
    all: by intros _ ->%elem_of_singleton.
  - destruct (is_connected sid st); simpl; [|intros He; inversion He].
    unfold on_disconnect.
    destruct (sockets (close_socket sid st) !! sid ≫= authenticated) as [[u p]|];
      simpl; intros He; [|inversion He].
    apply list_elem_of_singleton in He as ->. discriminate.
  - intros (sid & Hin & _ & ->)%elem_of_sendToUser _. simpl.
    intros ->%elem_of_singleton.
    destruct (registry_sound _ Hreg sid Hin) as (sock & Hs & Hc & _).
    by eapply lookup_connected.
  - intros ->%list_elem_of_singleton. discriminate.
Qed.

(** X5. Whatever the event, whoever is sent anything is, in the state
    after the event, a connected socket; whoever is sent a room broadcast is
    moreover registered in [connectedUsers], that is, has been through a
    successful [authenticate], unless the room addressed is the one socket.io
    names after the socket's own id. Nothing is ever sent to a closed socket,
    and a socket that never authenticated is sent no room broadcast but what
    is addressed to its own id. *)
Theorem emissions_reach_connected_sockets st i e c :
  reachable st →
  e ∈ (step i st).2 → c ∈ recipients e →
  is_connected c (step i st).1 = true ∧
  (is_Some (room_of (addr e)) →
   c ∈ connectedUsers (step i st).1 ∨ room_of (addr e) = Some c).
Proof.
  intros Hreach He Hc.
  pose proof (reachable_registry _ Hreach) as Hreg.
  pose proof (reachable_inv _ (reachable_step i st Hreach)) as Hinv'.
  pose proof (reachable_registry _ (reachable_step i st Hreach)) as Hreg'.
  destruct (room_of (addr e)) as [A|] eqn:HA.
  - pose proof (room_emission_within_room_sockets i st e A He HA c Hc) as Hin.
    apply elem_of_room_sockets in Hin as [Hin|[-> Hconn]];
      [|split; [done|by right]].
    pose proof (inv_member_connected _ Hinv' A c Hin) as Hconn.
    split; [done|]. intros _. left. unfold is_connected in Hconn.
    destruct (sockets (step i st).1 !! c) as [sock|] eqn:Hs; [|done].
    eapply registry_complete; eauto.
    destruct (projectId sock) eqn:Hp; [done|].
    by destruct (inv_no_project_no_room _ Hinv' c sock A Hs Hp).
  - split; [by eapply direct_emission_connected|]. by intros [? ?].
Qed.

Lemma emissions_reach_connected_sockets_witness :
  is_connected "s3"
    (step (Message "s1" (chat_message (mkChat "hi" None) "0.4fzyo82mvyr") 20)
          two_tabs).1 = true.
Proof.
  refine (proj1 (emissions_reach_connected_sockets two_tabs
            (Message "s1" (chat_message (mkChat "hi" None) "0.4fzyo82mvyr") 20)
            (mkEmission (ToRoom "proj-1") {["s1"; "s2"; "s3"]}
               (ChatMessage "msg_20_4fzyo82mv" "u1" "proj-1" "hi" "user" 20))
            "s3" two_tabs_reachable _ _)).
  - vm_compute. left.
  - set_solver.
Defined.

(** ** What the handlers leave alone *)

(** X6. [file_change], [chat_message], [typing_start] and [typing_stop]
    never change the state of the service, whoever sends them: no socket
    field, no room, no registry entry and no Redis key. [cursor_update]
    changes at most one thing: when the sender passes the guard, the cursor
    record of its user and project is overwritten (TTL 60), and nothing else
    in Redis or in the service. *)
Theorem relays_leave_the_state_alone st sid now :
  (∀ msg, relay_only msg = true → (step (Message sid msg now) st).1 = st) ∧
  (∀ pos,
      sockets (step (Message sid (cursor_update pos) now) st).1 = sockets st ∧
      rooms (step (Message sid (cursor_update pos) now) st).1 = rooms st ∧
      connectedUsers (step (Message sid (cursor_update pos) now) st).1
        = connectedUsers st ∧
      (redis (step (Message sid (cursor_update pos) now) st).1 = redis st ∨
       ∃ u p,
         sockets st !! sid ≫= authenticated = Some (u, p) ∧
         redis (step (Message sid (cursor_update pos) now) st).1
           = <[position_key u p := mkEntry (CursorValue pos) now 60]> (redis st))).
Proof.
  split.
  - intros msg Hrelay. simpl. destruct (is_connected sid st); [|done].
    destruct msg; try discriminate; simpl; autounfold with handlers;
      by destruct (sockets st !! sid ≫= authenticated) as [[u p]|].
  - intros pos. simpl. destruct (is_connected sid st); [|by auto].
    simpl. unfold on_cursor_update.
    destruct (sockets st !! sid ≫= authenticated) as [[u p]|]; simpl; [|by auto].
    repeat split. right. by exists u, p.
Qed.

Lemma relays_leave_the_state_alone_witness :
  (step (Message "s1" (file_change (mkFile "f1" "let x = 1" "[]")) 20) two_tabs).1
  = two_tabs.
Proof.
  exact (proj1 (relays_leave_the_state_alone two_tabs "s1" 20)
               (file_change (mkFile "f1" "let x = 1" "[]")) eq_refl).
Defined.

Lemma close_redis st sid now :
  redis (step (Close sid now) st).1 = redis st ∨
  ∃ u p, redis (step (Close sid now) st).1 = delete (session_key u p) (redis st).
Proof.
  simpl. destruct (is_connected sid st); [|by left].
  unfold on_disconnect.
  destruct (sockets (close_socket sid st) !! sid ≫= authenticated) as [[u p]|];
    simpl; [|by left].
  right. by exists u, p.
Qed.

Lemma close_keeps_cursor_records_aux st sid now u p :
  redis (step (Close sid now) st).1 !! position_key u p
  = redis st !! position_key u p.
Proof.
  destruct (close_redis st sid now) as [->|(u' & p' & ->)]; [done|].
  apply lookup_delete_ne, session_key_not_position_key.
Qed.

(** X7. The [disconnect] handler deletes the session record only: every
    cursor record, the one of the departing user included, is left in Redis
    as it was and reads as before until its own TTL runs out. *)
Theorem close_keeps_cursor_records st sid now u p t :
  redis (step (Close sid now) st).1 !! position_key u p
    = redis st !! position_key u p ∧
  RedisService.getCache (cursor_key u p) t (redis (step (Close sid now) st).1)
    = RedisService.getCache (cursor_key u p) t (redis st).
Proof.
  pose proof (close_keeps_cursor_records_aux st sid now u p) as H.
  split; [exact H|].
  unfold RedisService.getCache, RedisService.get.
  change ("cache:" +:+ cursor_key u p) with (position_key u p). by rewrite H.
Qed.

Example cursor_record_outlives_its_user :
  let st := (run [Message "s3" (cursor_update (mkPosition 4 10)) 100;
                  Close "s3" 200] two_tabs).1 in
  RedisService.getCache (cursor_key "u3" "proj-1") 300 (redis st)
    = Some (CursorValue (mkPosition 4 10)) ∧
  RedisService.getCache (collaboration_key "u3" "proj-1") 300 (redis st) = None.
Proof. split; vm_compute; reflexivity. Qed.

(** ** getConnectedUsers as sockets come and go *)

Lemma close_registry st sid now :
  is_connected sid st = true →
  connectedUsers (step (Close sid now) st).1
    = connectedUsers_delete sid (connectedUsers st) ∧
  ∀ x, x ≠ sid → sockets (step (Close sid now) st).1 !! x = sockets st !! x.
Proof.
  intros Hconn. simpl. rewrite Hconn. split.
  - unfold on_disconnect.
    by destruct (sockets (close_socket sid st) !! sid ≫= authenticated) as [[u p]|].
  - intros x Hne. rewrite (proj1 (on_disconnect_keeps_index _ _ _)). simpl.
    by rewrite lookup_alter_ne.
Qed.

(** X8. After a socket has closed, [getConnectedUsers] lists a user for a
    project exactly when another registered socket carries that user id and
    that project: the user of the closed socket disappears from the list
    unless it is connected a second time. *)
Theorem close_updates_connected_users st sid now pid u :
  reachable st →
  (u ∈ getConnectedUsers pid (step (Close sid now) st).1 ↔
   ∃ sid' sock,
     sid' ≠ sid ∧ sid' ∈ connectedUsers st ∧ sockets st !! sid' = Some sock ∧
     userId sock = Some u ∧ u ≠ "" ∧ projectId sock = Some pid).
Proof.
  intros Hreg%reachable_registry. rewrite elem_of_getConnectedUsers.
  destruct (is_connected sid st) eqn:Hconn.
  - destruct (close_registry st sid now Hconn) as [Hkeys Hsock].
    rewrite Hkeys. split.
    + intros (x & sock & [Hin Hne]%elem_of_connectedUsers_delete & Hs & H).
      rewrite Hsock in Hs by done. exists x, sock. eauto.
    + intros (x & sock & Hne & Hin & Hs & H). exists x, sock.
      rewrite elem_of_connectedUsers_delete, Hsock by done. eauto.
  - assert (Hsame : (step (Close sid now) st).1 = st) by (simpl; by rewrite Hconn).
    rewrite Hsame. split.
    + intros (x & sock & Hin & Hs & H). exists x, sock. split; [|eauto].
      intros ->. destruct (registry_sound _ Hreg sid Hin) as (s' & Hs' & Hc & _).
      unfold is_connected in Hconn. rewrite Hs' in Hconn. congruence.
    + intros (x & sock & _ & H). exists x, sock. exact H.
Qed.

Lemma close_updates_connected_users_witness :
  "u1" ∈ getConnectedUsers "proj-1" (step (Close "s1" 50) two_tabs).1 ↔
  ∃ sid' sock,
    sid' ≠ "s1" ∧ sid' ∈ connectedUsers two_tabs ∧
    sockets two_tabs !! sid' = Some sock ∧
    userId sock = Some "u1" ∧ "u1" ≠ "" ∧ projectId sock = Some "proj-1".
Proof.
  exact (close_updates_connected_users two_tabs "s1" 50 "proj-1" "u1"
           two_tabs_reachable).
Defined.

Example one_tab_closes_then_the_other :
  getConnectedUsers "proj-1" (run [Close "s1" 50] two_tabs).1 = ["u1"; "u3"] ∧
  getConnectedUsers "proj-1" (run [Close "s1" 50; Close "s2" 51] two_tabs).1 = ["u3"].
Proof. split; vm_compute; reflexivity. Qed.

(** X9. After a connected socket has authenticated, [getConnectedUsers]
    lists a user for a project exactly when it is the socket's new user id,
    non-empty, for the socket's new project, or another registered socket
    carries that user id and that project: the socket counts for its new
    project only, whatever it was registered with before. *)
Theorem authenticate_updates_connected_users st sid sock d now pid u :
  sockets st !! sid = Some sock → connected sock = true →
  (u ∈ getConnectedUsers pid (step (Message sid (authenticate (Some d)) now) st).1 ↔
   (u = a_userId d ∧ u ≠ "" ∧ pid = a_projectId d) ∨
   ∃ sid' sock',
     sid' ≠ sid ∧ sid' ∈ connectedUsers st ∧ sockets st !! sid' = Some sock' ∧
     userId sock' = Some u ∧ u ≠ "" ∧ projectId sock' = Some pid).
Proof.
  intros Hs Hc.
  rewrite (step_message _ _ _ _ (lookup_connected _ _ _ Hs Hc)). cbn [handle].
  rewrite elem_of_getConnectedUsers.
  assert (Hlk : ∀ x, x ≠ sid →
            sockets (on_authenticate sid (Some d) now st).1 !! x = sockets st !! x).
  { intros x Hne. simpl. by rewrite lookup_alter_ne. }
  pose proof (authenticate_socket sid sock d now st Hs) as Hself.
  assert (Hkeys : ∀ x, x ∈ connectedUsers (on_authenticate sid (Some d) now st).1 ↔
                       x ∈ connectedUsers st ∨ x = sid).
  { intros x. simpl. apply elem_of_connectedUsers_set. }
  split.
  - intros (x & sock' & Hin & Hsx & Hu & Hne & Hp).
    destruct (decide (x = sid)) as [->|Hx].
    + left. rewrite Hself in Hsx. injection Hsx as <-. simpl in Hu, Hp.
      naive_solver.
    + right. rewrite Hlk in Hsx by done. apply Hkeys in Hin as [Hin|?]; [|done].
      exists x, sock'. by repeat split.
  - intros [(-> & Hne & ->)|(x & sock' & Hx & Hin & Hsx & H)].
    + eexists sid, _. split; [apply Hkeys; by right|]. split; [exact Hself|]. done.
    + destruct H as (Hu & Hne & Hp).
      exists x, sock'. rewrite Hkeys, Hlk by done. repeat split; auto.
Qed.

Lemma authenticate_updates_connected_users_witness :
  "u9" ∈ getConnectedUsers "proj-2"
           (step (Message "s1" (authenticate (Some (mkAuth "u9" "proj-2"))) 30)
                 two_tabs).1.
Proof.
  refine (proj2 (authenticate_updates_connected_users two_tabs "s1"
                   (mkSocket (Some "u1") (Some "proj-1") true)
                   (mkAuth "u9" "proj-2") 30 "proj-2" "u9" _ _) _).
  - vm_compute. reflexivity.
  - reflexivity.
  - left. split; [reflexivity|]. split; [discriminate|reflexivity].
Defined.

(** ** One session record per user and project *)

(** X10. The session record is keyed by user and project, not by socket:
    when a user has two connected sockets in one project and one of them
    closes, the session record is deleted and reads as absent, although the
    other socket is still connected, registered, a member of the room, and
    its user is still listed by [getConnectedUsers]. *)
Theorem closing_one_socket_drops_the_shared_session
    st sid1 sid2 sock1 sock2 u p now :
  reachable st → sid1 ≠ sid2 →
  sockets st !! sid1 = Some sock1 → connected sock1 = true →
  authenticated sock1 = Some (u, p) →
  sockets st !! sid2 = Some sock2 → connected sock2 = true →
  authenticated sock2 = Some (u, p) →
  (∀ t, RedisService.getCache (collaboration_key u p) t
          (redis (step (Close sid1 now) st).1) = None) ∧
  sockets (step (Close sid1 now) st).1 !! sid2 = Some sock2 ∧
  sid2 ∈ connectedUsers (step (Close sid1 now) st).1 ∧
  sid2 ∈ members (step (Close sid1 now) st).1 p ∧
  u ∈ getConnectedUsers p (step (Close sid1 now) st).1.
Proof.
  intros Hreach Hne Hs1 Hc1 Ha1 Hs2 Hc2 Ha2.
  pose proof (lookup_connected _ _ _ Hs1 Hc1) as Hconn.
  pose proof (closed_socket_guard _ _ _ _ _ Hs1 Ha1) as Hg.
  pose proof (reachable_inv _ Hreach) as Hinv.
  pose proof (reachable_registry _ Hreach) as Hreg.
  destruct (close_registry st sid1 now Hconn) as [Hkeys Hsock].
  apply authenticated_spec in Ha2 as (Hu2 & Hp2 & Hune & Hpne).
  assert (Hin2 : sid2 ∈ connectedUsers st).
  { eapply registry_complete; eauto; by rewrite Hp2. }
  assert (Hreg2 : sid2 ∈ connectedUsers (step (Close sid1 now) st).1).
  { rewrite Hkeys. apply elem_of_connectedUsers_delete. by split. }
  split; [|split; [|split; [|split]]].
  - intros t. simpl. rewrite Hconn. unfold on_disconnect. rewrite Hg. simpl.
    unfold RedisService.getCache, RedisService.get, RedisService.deleteCache,
      RedisService.del.
    by rewrite lookup_delete_eq.
  - by rewrite Hsock.
  - exact Hreg2.
  - simpl. rewrite Hconn. unfold on_disconnect. rewrite Hg.
    cbn [fst].
    rewrite (members_same_rooms _ (leaveAll sid1 st)) by reflexivity.
    rewrite members_leaveAll. apply elem_of_difference. split.
    + by eapply inv_project_member.
    + by intros ?%elem_of_singleton.
  - apply elem_of_getConnectedUsers. exists sid2, sock2.
    rewrite Hsock by done. by repeat split.
Qed.

Lemma closing_one_socket_drops_the_shared_session_witness :
  (∀ t, RedisService.getCache (collaboration_key "u1" "proj-1") t
          (redis (step (Close "s1" 50) two_tabs).1) = None) ∧
  "u1" ∈ getConnectedUsers "proj-1" (step (Close "s1" 50) two_tabs).1.
Proof.
  destruct (closing_one_socket_drops_the_shared_session two_tabs "s1" "s2"
              (mkSocket (Some "u1") (Some "proj-1") true)
              (mkSocket (Some "u1") (Some "proj-1") true) "u1" "proj-1" 50)
    as (Hgone & _ & _ & _ & Hlisted).
  - exact two_tabs_reachable.
  - discriminate.
  - vm_compute. reflexivity.
  - reflexivity.
  - reflexivity.
  - vm_compute. reflexivity.
  - reflexivity.
  - reflexivity.
  - split; [exact Hgone | exact Hlisted].
Defined.

(** ** Empty identifiers *)

Lemma falsy_socket_is_ignored st sid sock :
  sockets st !! sid = Some sock → authenticated sock = None →
  (∀ msg now, (∀ data, msg ≠ authenticate data) →
              step (Message sid msg now) st = (st, [])) ∧
  (∀ now, (step (Close sid now) st).2 = [] ∧
          redis (step (Close sid now) st).1 = redis st).
Proof.
  intros Hs Hguard. split.
  - intros msg now Hmsg. simpl. destruct (is_connected sid st); [|done].
    destruct msg as [data| | | | |]; simpl; [by destruct (Hmsg data) | ..];
      autounfold with handlers; rewrite Hs; simpl; by rewrite Hguard.
  - intros now. simpl. destruct (is_connected sid st); [|done].
    unfold on_disconnect.
    assert (Hg : sockets (close_socket sid st) !! sid ≫= authenticated = None).
    { simpl. rewrite lookup_alter. destruct (decide (sid = sid)); [|done].
      rewrite Hs. simpl. unfold authenticated in *. simpl. exact Hguard. }
    by rewrite Hg.
Qed.

(** X11. The [authenticate] handler does not look at the identifiers it is
    given. A connected socket authenticating with an empty user id or an
    empty project id is still joined to the room, registered, given a session
    record, and announced with [user_joined]; but the guard of the other
    handlers treats empty strings as unset, so from then on its events are
    dropped, and when it closes no [user_left] is sent and its session record
    stays in Redis until it expires. *)
Theorem empty_identifier_joins_but_never_leaves st sid sock d now now' :
  sockets st !! sid = Some sock → connected sock = true →
  a_userId d = "" ∨ a_projectId d = "" →
  (step (Message sid (authenticate (Some d)) now) st).2
    = [mkEmission (ToRoomExcept (a_projectId d) sid)
         (room_sockets st (a_projectId d) ∖ {[sid]})
         (UserJoined (a_userId d) sid now)] ∧
  sid ∈ members (step (Message sid (authenticate (Some d)) now) st).1 (a_projectId d) ∧
  sid ∈ connectedUsers (step (Message sid (authenticate (Some d)) now) st).1 ∧
  redis (step (Message sid (authenticate (Some d)) now) st).1
    !! session_key (a_userId d) (a_projectId d)
  = Some (mkEntry (SessionValue sid now true) now 3600) ∧
  (∀ msg, (∀ data, msg ≠ authenticate data) →
     step (Message sid msg now')
          (step (Message sid (authenticate (Some d)) now) st).1
     = ((step (Message sid (authenticate (Some d)) now) st).1, [])) ∧
  (step (Close sid now') (step (Message sid (authenticate (Some d)) now) st).1).2 = [] ∧
  redis (step (Close sid now') (step (Message sid (authenticate (Some d)) now) st).1).1
    = redis (step (Message sid (authenticate (Some d)) now) st).1.
Proof.
  intros Hs Hc Hempty.
  rewrite (step_message _ _ _ _ (lookup_connected _ _ _ Hs Hc)). cbn [handle].
  pose proof (authenticate_socket sid sock d now st Hs) as Hself.
  assert (Hguard : authenticated
                     (mkSocket (Some (a_userId d)) (Some (a_projectId d)) (connected sock))
                   = None).
  { unfold authenticated, truthy; simpl.
    destruct Hempty as [-> | ->]; simpl; [done|].
    by rewrite andb_false_r. }
  destruct (falsy_socket_is_ignored _ _ _ Hself Hguard) as [Hdrop Hclose].
  split; [|split; [|split; [|split; [|split; [|split]]]]].
  - rewrite on_authenticate_out. unfold socket_to. by rewrite authenticate_others.
  - apply authenticate_members. by right.
  - simpl. apply elem_of_connectedUsers_set. by right.
  - simpl. unfold RedisService.setCache, RedisService.setEx.
    apply lookup_insert_eq.
  - intros msg Hmsg. by apply Hdrop.
  - apply Hclose.
  - apply Hclose.
Qed.

Lemma empty_identifier_joins_but_never_leaves_witness :
  (step (Close "s1" 40)
        (step (Message "s1" (authenticate (Some (mkAuth "" "proj-1"))) 30) lobby).1).2
  = [].
Proof.
  destruct (empty_identifier_joins_but_never_leaves lobby "s1"
              (mkSocket None None true) (mkAuth "" "proj-1") 30 40)
    as (_ & _ & _ & _ & _ & Hsilent & _).
  - vm_compute. reflexivity.
  - reflexivity.
  - left. reflexivity.
  - exact Hsilent.
Defined.

Example empty_user_id_scenario :
  map (λ e, (elements (recipients e), payload e))
      (run [Message "s1" (authenticate (Some (mkAuth "" "proj-1"))) 30;
            Message "s1" typing_start 31;
            Close "s1" 40] lobby).2
  = [(["s2"], UserJoined "" "s1" 30)].
Proof. vm_compute. reflexivity. Qed.

(** ** Authenticating again *)

Lemma socket_eta sock u p :
  userId sock = Some u → projectId sock = Some p →
  mkSocket (Some u) (Some p) (connected sock) = sock.
Proof. destruct sock; simpl; by intros -> ->. Qed.

(** X12. Authenticating again with the identifiers the socket already
    carries changes neither the socket, nor the rooms, nor the registry: the
    join and the registration are idempotent. The others in the room are
    nevertheless told [user_joined] again, and the session record is written
    again with the new instant. *)
Theorem repeated_authenticate st sid sock d now :
  reachable st →
  sockets st !! sid = Some sock → connected sock = true →
  userId sock = Some (a_userId d) → projectId sock = Some (a_projectId d) →
  sockets (step (Message sid (authenticate (Some d)) now) st).1 = sockets st ∧
  rooms (step (Message sid (authenticate (Some d)) now) st).1 = rooms st ∧
  connectedUsers (step (Message sid (authenticate (Some d)) now) st).1
    = connectedUsers st ∧
  redis (step (Message sid (authenticate (Some d)) now) st).1
    = <[session_key (a_userId d) (a_projectId d)
        := mkEntry (SessionValue sid now true) now 3600]> (redis st) ∧
  (step (Message sid (authenticate (Some d)) now) st).2
    = [mkEmission (ToRoomExcept (a_projectId d) sid)
         (room_sockets st (a_projectId d) ∖ {[sid]})
         (UserJoined (a_userId d) sid now)].
Proof.
  intros Hreach Hs Hc Hu Hp.
  pose proof (reachable_inv _ Hreach) as Hinv.
  pose proof (reachable_registry _ Hreach) as Hreg.
  rewrite (step_message _ _ _ _ (lookup_connected _ _ _ Hs Hc)). cbn [handle].
  assert (Hin : sid ∈ members st (a_projectId d))
    by (by eapply inv_project_member).
  assert (Hrooms : <[a_projectId d := {[sid]} ∪ default ∅ (rooms st !! a_projectId d)]>
                     (rooms st) = rooms st).
  { unfold members in Hin.
    destruct (rooms st !! a_projectId d) as [X|] eqn:HX; simpl in *; [|set_solver].
    apply insert_id. rewrite HX. f_equal. set_solver. }
  split; [|split; [|split; [|split]]].
  - simpl. apply map_eq. intros x. rewrite lookup_alter.
    destruct (decide (sid = x)) as [<-|]; [|done].
    rewrite Hs. simpl. f_equal. by apply socket_eta.
  - simpl. exact Hrooms.
  - simpl. unfold connectedUsers_set. rewrite bool_decide_true; [done|].
    eapply registry_complete; eauto; by rewrite Hp.
  - reflexivity.
  - rewrite on_authenticate_out. unfold socket_to. by rewrite authenticate_others.
Qed.

Lemma repeated_authenticate_witness :
  rooms (step (Message "s1" (authenticate (Some (mkAuth "u1" "proj-1"))) 60)
              two_tabs).1 = rooms two_tabs ∧
  connectedUsers (step (Message "s1" (authenticate (Some (mkAuth "u1" "proj-1"))) 60)
                       two_tabs).1 = connectedUsers two_tabs.
Proof.
  destruct (repeated_authenticate two_tabs "s1"
              (mkSocket (Some "u1") (Some "proj-1") true) (mkAuth "u1" "proj-1") 60)
    as (_ & Hrooms & Hkeys & _).
  - exact two_tabs_reachable.
  - vm_compute. reflexivity.
  - reflexivity.
  - reflexivity.
  - reflexivity.
  - split; [exact Hrooms | exact Hkeys].
Defined.

(** ** Presence keys *)

Lemma split_at_colon s t :
  colon_free s →
  before_colon (s +:+ ":" +:+ t) = s ∧ after_colon (s +:+ ":" +:+ t) = t.
Proof.
  unfold colon_free. induction s as [|c s IH]; simpl; [done|].
  destruct (Ascii.eqb c ":"); [discriminate|].
  intros [= Hs]. by destruct (IH Hs) as [-> ->].
Qed.

Lemma colon_split_inj s t s' t' :
  colon_free s → colon_free s' →
  s +:+ ":" +:+ t = s' +:+ ":" +:+ t' → s = s' ∧ t = t'.
Proof.
  intros Hs Hs' Heq.
  destruct (split_at_colon s t Hs) as [H1 H2].
  destruct (split_at_colon s' t' Hs') as [H1' H2'].
  rewrite Heq in H1, H2. split; congruence.
Qed.

(** X13. The Redis keys of the presence records separate users and
    projects as long as user ids contain no colon: for colon-free user ids
    two cursor keys, or two session keys, are equal only for the same user
    and the same project, so a [cursor_update] or an [authenticate] of one
    user in one project never overwrites the record of another pair. *)
Theorem presence_keys_injective u p u' p' :
  colon_free u → colon_free u' →
  (cursor_key u p = cursor_key u' p' → u = u' ∧ p = p') ∧
  (collaboration_key u p = collaboration_key u' p' → u = u' ∧ p = p') ∧
  (position_key u p = position_key u' p' → u = u' ∧ p = p') ∧
  (session_key u p = session_key u' p' → u = u' ∧ p = p').
Proof.
  intros Hu Hu'.
  unfold position_key, session_key, cursor_key, collaboration_key.
  (split; [|split; [|split]]); intros Heq; simpl in Heq; injection Heq as Heq;
    by destruct (colon_split_inj u p u' p' Hu Hu' Heq).
Qed.

Lemma presence_keys_injective_witness :
  "u1" = "u1" ∧ "proj-1" = "proj-1".
Proof.
  refine (proj1 (presence_keys_injective "u1" "proj-1" "u1" "proj-1" _ _) _);
    reflexivity.
Defined.

(** With a colon in a user id two different pairs share one key. *)
Example presence_keys_collide :
  cursor_key "a:b" "c" = cursor_key "a" "b:c" ∧
  collaboration_key "a:b" "c" = collaboration_key "a" "b:c".
Proof. split; reflexivity. Qed.

(** ** How long a cursor record can be read *)

Lemma step_keeps_cursor_records i st u p :
  is_cursor_update i = false →
  redis (step i st).1 !! position_key u p = redis st !! position_key u p.
Proof.
  intros Hi.
  destruct i as [sid|sid msg now|sid now| |]; simpl; try done.
  - by destruct (sockets st !! sid).
  - destruct (is_connected sid st); [|done].
    destruct msg as [[d|]| | | | |]; try discriminate; simpl; try done;
      autounfold with handlers;
      try by destruct (sockets st !! sid ≫= authenticated) as [[u' p']|].
    unfold RedisService.setCache, RedisService.setEx.
    apply lookup_insert_ne, session_key_not_position_key.
  - apply close_keeps_cursor_records_aux.
Qed.
Lemma run_keeps_cursor_records tr st u p :
  (∀ i, i ∈ tr → is_cursor_update i = false) →
  redis (run tr st).1 !! position_key u p = redis st !! position_key u p.
Proof.
  revert st. induction tr as [|i tr IH]; intros st Hno; simpl; [done|].
  pose proof (step_keeps_cursor_records i st u p (Hno i ltac:(left))) as Hstep.
  specialize (IH (step i st).1 (λ j Hj, Hno j ltac:(by right))).
  destruct (step i st) as [s1 o1]; simpl in *.
  destruct (run tr s1) as [s2 o2]; simpl in *. congruence.
Qed.

(** X14. After a [cursor_update] of an authenticated socket the position
    can be read back from Redis for exactly 60 seconds, whatever happens in
    the meantime short of another [cursor_update]: joins, chat, typing, file
    changes and disconnects, the sender's own included, leave the record
    alone. *)
Theorem cursor_record_readable st sid sock u p pos now tr t :
  sockets st !! sid = Some sock → connected sock = true →
  authenticated sock = Some (u, p) →
  (∀ i, i ∈ tr → is_cursor_update i = false) →
  RedisService.getCache (cursor_key u p) t
    (redis (run tr (step (Message sid (cursor_update pos) now) st).1).1)
  = if t <? now + 60 * 1000 then Some (CursorValue pos) else None.
Proof.
  intros Hs Hc Ha Hno.
  unfold RedisService.getCache, RedisService.get.
  change ("cache:" +:+ cursor_key u p) with (position_key u p).
  rewrite (run_keeps_cursor_records tr _ u p Hno).
  rewrite (step_message _ _ _ _ (lookup_connected _ _ _ Hs Hc)). cbn [handle].
  unfold on_cursor_update. rewrite (guard_passes _ _ _ _ _ Hs Ha). simpl.
  unfold RedisService.setCache, RedisService.setEx.
  change ("cache:" +:+ cursor_key u p) with (position_key u p).
  by rewrite lookup_insert_eq.
Qed.

Lemma cursor_record_readable_witness :
  RedisService.getCache (cursor_key "u3" "proj-1") 50000
    (redis (run [Message "s1" typing_start 200; Close "s3" 300]
                (step (Message "s3" (cursor_update (mkPosition 4 10)) 100)
                      two_tabs).1).1)
  = if 50000 <? 100 + 60 * 1000 then Some (CursorValue (mkPosition 4 10)) else None.
Proof.
  apply (cursor_record_readable two_tabs "s3"
           (mkSocket (Some "u3") (Some "proj-1") true)).
  - vm_compute. reflexivity.
  - reflexivity.
  - reflexivity.
  - intros i Hin.
    repeat (apply elem_of_cons in Hin as [->|Hin]; [reflexivity|]).
    by apply not_elem_of_nil in Hin.
Defined.

(** ** The Redis client *)

(** X15. The reconnection delay of the Redis client grows by 50 ms per
    retry and is capped at one second: for a retry count that is not
    negative it lies between 0 and 1000, equals 50 times the count up to 20
    retries and 1000 from 20 retries on, and never decreases as the count
    grows. *)
Theorem reconnectStrategy_bounds retries :
  0 ≤ retries →
  0 ≤ reconnectStrategy retries ≤ 1000 ∧
  (retries ≤ 20 → reconnectStrategy retries = retries * 50) ∧
  (20 ≤ retries → reconnectStrategy retries = 1000) ∧
  (∀ later, retries ≤ later →
            reconnectStrategy retries ≤ reconnectStrategy later).
Proof. unfold reconnectStrategy. intros Hpos. repeat split; intros; lia. Qed.

Lemma reconnectStrategy_bounds_witness :
  0 ≤ reconnectStrategy 3 ≤ 1000 ∧ reconnectStrategy 3 = 3 * 50.
Proof.
  destruct (reconnectStrategy_bounds 3) as (Hrange & Hlin & _); [lia|].
  split; [exact Hrange | apply Hlin; lia].
Defined.




(** ** Whose name an event carries *)

Lemma chat_type_spec t :
  chat_type t ≠ "" ∧
  (truthy t = true → Some (chat_type t) = t) ∧
  (truthy t = false → chat_type t = "user").
Proof.
  destruct t as [s|]; simpl; [|by repeat split].
  destruct (String.eqb_spec s ""); simpl; repeat split; try done.
Qed.

(** X17. Once a socket is authenticated, the user id in everything it
    causes to be emitted is the one stored on the socket by [authenticate],
    never one taken from the message: a cursor update, file change, chat
    message or typing indicator cannot be sent under another user's name.
    A chat message is relayed with its text as given, and with the type
    [user] when the client gave none or an empty one. *)
Theorem events_carry_the_socket_identity st sid sock msg now e :
  sockets st !! sid = Some sock → connected sock = true →
  (∀ data, msg ≠ authenticate data) →
  e ∈ (step (Message sid msg now) st).2 →
  payload_uid (payload e) = userId sock ∧
  (∀ data random36, msg = chat_message data random36 →
     ∃ id ty, payload e = ChatMessage id (default "" (userId sock))
                            (default "" (projectId sock)) (c_message data) ty now ∧
              ty ≠ "" ∧
              (truthy (c_type data) = true → Some ty = c_type data) ∧
              (truthy (c_type data) = false → ty = "user")).
Proof.
  intros Hs Hc Hmsg.
  rewrite (step_message _ _ _ _ (lookup_connected _ _ _ Hs Hc)).
  destruct msg as [data| | | | |]; simpl; [by destruct (Hmsg data) | ..];
    autounfold with handlers; rewrite Hs; simpl;
    (destruct (authenticated sock) as [[u p]|] eqn:Ha;
     [ apply authenticated_spec in Ha as (Hu & Hp & _ & _)
     | by intros ?%not_elem_of_nil ]);
    intros ->%list_elem_of_singleton; simpl; (split; [done|]);
    intros data' r' [=]; subst.
  rewrite Hu, Hp. simpl. eexists _, _. split; [reflexivity|].
  apply chat_type_spec.
Qed.

Lemma events_carry_the_socket_identity_witness :
  payload_uid
    (payload (mkEmission (ToRoomExcept "proj-1" "s1") {["s2"; "s3"]}
                (TypingStart "u1" 20)))
  = userId (mkSocket (Some "u1") (Some "proj-1") true).
Proof.
  refine (proj1 (events_carry_the_socket_identity two_tabs "s1"
                   (mkSocket (Some "u1") (Some "proj-1") true) typing_start 20
                   (mkEmission (ToRoomExcept "proj-1" "s1") {["s2"; "s3"]}
                      (TypingStart "u1" 20)) _ _ _ _)).
  - vm_compute. reflexivity.
  - reflexivity.
  - intros data. discriminate.
  - vm_compute. left.
Defined.

(** ** A session record is written once *)

Lemma step_keeps_session_records i st u p :
  touches_session i = false →
  redis (step i st).1 !! session_key u p = redis st !! session_key u p.
Proof.
  intros Hi.
  destruct i as [sid|sid msg now|sid now| |]; simpl; try done.
  - by destruct (sockets st !! sid).
  - destruct (is_connected sid st); [|done].
    destruct msg as [[d|]| | | | |]; try discriminate; simpl; try done;
      autounfold with handlers;
      destruct (sockets st !! sid ≫= authenticated) as [[u' p']|]; simpl; try done.
    unfold RedisService.setCache, RedisService.setEx.
    apply lookup_insert_ne. intros Heq. symmetry in Heq.
    by apply session_key_not_position_key in Heq.
Qed.

Lemma run_keeps_session_records tr st sid u p r :
  (∀ i, i ∈ tr → touches_session i = false) →
  redis (run tr st).1 !! session_key u p = redis st !! session_key u p ∧
  (sid ∈ members st r → sid ∈ members (run tr st).1 r).
Proof.
  revert st. induction tr as [|i tr IH]; intros st Hno; simpl; [done|].
  pose proof (step_keeps_session_records i st u p (Hno i ltac:(left))) as Hstep.
  destruct (step_without_close i st sid) as [_ Hmem].
  { intros now ->. by specialize (Hno _ ltac:(left)). }
  specialize (IH (step i st).1 (λ j Hj, Hno j ltac:(by right))) as [IH1 IH2].
  destruct (step i st) as [s1 o1]; simpl in *.
  destruct (run tr s1) as [s2 o2]; simpl in *.
  split; [congruence|]. auto.
Qed.

(** X18. The session record is written by [authenticate] and by nothing
    else: no later activity of the socket refreshes it. Over any sequence of
    events without a further [authenticate] or a close, the record reads as
    written for 3600 seconds and as absent from then on, while the socket is
    still a member of its room. *)
Theorem session_record_is_not_refreshed st sid sock d now tr t :
  sockets st !! sid = Some sock → connected sock = true →
  (∀ i, i ∈ tr → touches_session i = false) →
  RedisService.getCache (collaboration_key (a_userId d) (a_projectId d)) t
    (redis (run tr (step (Message sid (authenticate (Some d)) now) st).1).1)
  = (if t <? now + 3600 * 1000 then Some (SessionValue sid now true) else None) ∧
  sid ∈ members (run tr (step (Message sid (authenticate (Some d)) now) st).1).1
                (a_projectId d).
Proof.
  intros Hs Hc Hno.
  destruct (run_keeps_session_records tr
              (step (Message sid (authenticate (Some d)) now) st).1
              sid (a_userId d) (a_projectId d) (a_projectId d) Hno) as [Hkeep Hmem].
  split.
  - unfold RedisService.getCache, RedisService.get.
    change ("cache:" +:+ collaboration_key (a_userId d) (a_projectId d))
      with (session_key (a_userId d) (a_projectId d)).
    rewrite Hkeep.
    rewrite (step_message _ _ _ _ (lookup_connected _ _ _ Hs Hc)). simpl.
    unfold RedisService.setCache, RedisService.setEx.
    change ("cache:" +:+ collaboration_key (a_userId d) (a_projectId d))
      with (session_key (a_userId d) (a_projectId d)).
    by rewrite lookup_insert_eq.
  - apply Hmem.
    rewrite (step_message _ _ _ _ (lookup_connected _ _ _ Hs Hc)). cbn [handle].
    apply authenticate_members. by right.
Qed.

Lemma session_record_is_not_refreshed_witness :
  RedisService.getCache (collaboration_key "u1" "proj-1") 3700000
    (redis (run [Message "s1" (cursor_update (mkPosition 1 1)) 3650000;
                 Message "s1" typing_start 3660000]
                (step (Message "s1" (authenticate (Some (mkAuth "u1" "proj-1"))) 20)
                      lobby).1).1)
  = (if 3700000 <? 20 + 3600 * 1000 then Some (SessionValue "s1" 20 true) else None).
Proof.
  refine (proj1 (session_record_is_not_refreshed lobby "s1"
                   (mkSocket None None true) (mkAuth "u1" "proj-1") 20
                   [Message "s1" (cursor_update (mkPosition 1 1)) 3650000;
                    Message "s1" typing_start 3660000] 3700000 _ _ _)).
  - vm_compute. reflexivity.
  - reflexivity.
  - intros i Hin.
    repeat (apply elem_of_cons in Hin as [->|Hin]; [reflexivity|]).
    by apply not_elem_of_nil in Hin.
Defined.
